(** * Fertile Life: the simulation worker [src/simWorker.ts]

    A shallow embedding of the worker that runs the Fertile Life cellular
    automaton (Conway's Life coupled to a soil-fertility field on a torus),
    followed by the properties of its transition rule, its neighbour
    aggregation, its frame renderer and its message interface.

    The source file is present in two revisions.  Both share, word for word,
    [idx], [step], [renderFrame] and [postFrame]; they differ in
    [ensureArrays], in the tunables (constants in the first revision, mutable
    module variables with an extra [f0] in the second) and in the messages
    handled ([clear] in the first, [reset] and [setParams] in the second).
    The shared code is embedded once, the rest in [Module Rev1] and
    [Module Rev2].

    Numbers.  JavaScript numbers are modelled by exact rationals ([Q]) where
    the source computes with fractions and by [Z] where it computes with
    integers.  Rounding of double arithmetic and of [Float32Array] stores,
    infinities and overflow are outside the model.  NaN is modelled only where
    the code can meet it on rational inputs, in [renderFrame], through
    [Math.sqrt] of a negative number. *)

From Stdlib Require Import ZArith QArith Qround Qpower Lia Lqa List Bool.
From stdpp Require Import base list.
Import ListNotations.

#[local] Open Scope Z_scope.

(** ** Host primitives *)

(** [Math.sqrt] has irrational results; the embedding takes the square root
    of a non-negative rational from the host.  Nothing below depends on which
    function it is. *)
Class Host := { sqrt_nonneg : Q -> Q }.

(** One executable host: the square root truncated to 26 fractional bits. *)
Definition sqrt_dyadic (q : Q) : Q :=
  Z.sqrt (Qfloor (q * inject_Z (2 ^ 52))) # (2 ^ 26).

Definition dyadic_host : Host := {| sqrt_nonneg := sqrt_dyadic |}.

(** [Math.max(a, b)] and [Math.min(a, b)] on rationals. *)
Definition Math_max (a b : Q) : Q := if Qle_bool a b then b else a.
Definition Math_min (a b : Q) : Q := if Qle_bool a b then a else b.

(** A JavaScript number that may be NaN. *)
Inductive num (T : Type) : Type :=
| NaN : num T
| Num : T -> num T.
Arguments NaN {T}.
Arguments Num {T} _.

(** [Math.sqrt(t)]: NaN below zero. *)
Definition Math_sqrt `{Host} (t : Q) : num Q :=
  if Qle_bool 0 t then Num (sqrt_nonneg t) else NaN.

(** [Math.round(x)]: the nearest integer, halves rounded up. *)
Definition Math_round (x : num Q) : num Z :=
  match x with
  | NaN => NaN
  | Num q => Num (Qfloor (q + (1 # 2)))
  end.

(** [k * c] and [k + r] with a finite left operand. *)
Definition num_scale (k : Q) (c : num Q) : num Q :=
  match c with NaN => NaN | Num q => Num (k * q)%Q end.

Definition num_offset (k : Z) (r : num Z) : num Z :=
  match r with NaN => NaN | Num z => Num (k + z) end.

(** ** Typed arrays

    A typed array is a list; its length never changes.  Indices are
    JavaScript numbers, here [Z].  A store outside the array is ignored, as
    typed arrays do.  A read outside the array yields [undefined] in
    JavaScript; the embedding returns the element type's zero there.  On a
    well-formed grid [step] performs no such read: the neighbour pass by
    lemma [neighbour_indices_in_range], the two other loops because they
    read at their counter [i < N] only. *)

Definition rd {T : Type} (zero : T) (a : list T) (i : Z) : T :=
  if i <? 0 then zero else default zero (a !! Z.to_nat i).

Definition wr {T : Type} (a : list T) (i : Z) (v : T) : list T :=
  if i <? 0 then a else <[Z.to_nat i := v]> a.

Arguments rd : simpl never.
Arguments wr : simpl never.

(** [a.fill(v)] *)
Definition fill {T : Type} (a : list T) (v : T) : list T :=
  replicate (length a) v.

(** Conversion of an integer stored into a [Uint8Array]. *)
Definition to_uint8 (n : Z) : Z := n mod 256.

(** Conversion of a number stored into a [Uint8ClampedArray]. *)
Definition to_uint8_clamp (r : num Z) : Z :=
  match r with
  | NaN => 0
  | Num z => Z.max 0 (Z.min 255 z)
  end.

Inductive exn : Type := RangeError.

(** [new Uint8Array(n)], [new Float32Array(n)], [new Uint8ClampedArray(n)]
    for an integer [n]: a zero-filled array, or a [RangeError] when [n] is
    negative.  Running out of memory is not modelled. *)
Definition new_array {T : Type} (zero : T) (n : Z) : exn + list T :=
  if n <? 0 then inl RangeError else inr (replicate (Z.to_nat n) zero).

(** The values [0 .. n-1] taken by the counter of
    [for (let k = 0; k < n; k++)]. *)
Definition upto (n : Z) : list Z := Z.of_nat <$> seq 0 (Z.to_nat n).

(** ** Module-level state shared by both revisions *)

Record grid : Type := mkGrid {
  initialized : bool;
  st_W : Z;
  st_H : Z;
  st_N : Z;
  st_A : list Z;      (* Uint8Array, alive 0/1 *)
  st_F : list Q;      (* Float32Array, fertility *)
  st_A2 : list Z;     (* Uint8Array, next alive *)
  st_gen : Z;
  st_Fsum : list Q;   (* Float32Array *)
  st_Nsum : list Z    (* Uint8Array *)
}.

Definition set_initialized (b : bool) (g : grid) : grid :=
  mkGrid b (st_W g) (st_H g) (st_N g) (st_A g) (st_F g) (st_A2 g) (st_gen g)
         (st_Fsum g) (st_Nsum g).
Definition set_W (v : Z) (g : grid) : grid :=
  mkGrid (initialized g) v (st_H g) (st_N g) (st_A g) (st_F g) (st_A2 g)
         (st_gen g) (st_Fsum g) (st_Nsum g).
Definition set_H (v : Z) (g : grid) : grid :=
  mkGrid (initialized g) (st_W g) v (st_N g) (st_A g) (st_F g) (st_A2 g)
         (st_gen g) (st_Fsum g) (st_Nsum g).
Definition set_N (v : Z) (g : grid) : grid :=
  mkGrid (initialized g) (st_W g) (st_H g) v (st_A g) (st_F g) (st_A2 g)
         (st_gen g) (st_Fsum g) (st_Nsum g).
Definition set_A (v : list Z) (g : grid) : grid :=
  mkGrid (initialized g) (st_W g) (st_H g) (st_N g) v (st_F g) (st_A2 g)
         (st_gen g) (st_Fsum g) (st_Nsum g).
Definition set_F (v : list Q) (g : grid) : grid :=
  mkGrid (initialized g) (st_W g) (st_H g) (st_N g) (st_A g) v (st_A2 g)
         (st_gen g) (st_Fsum g) (st_Nsum g).
Definition set_A2 (v : list Z) (g : grid) : grid :=
  mkGrid (initialized g) (st_W g) (st_H g) (st_N g) (st_A g) (st_F g) v
         (st_gen g) (st_Fsum g) (st_Nsum g).
Definition set_gen (v : Z) (g : grid) : grid :=
  mkGrid (initialized g) (st_W g) (st_H g) (st_N g) (st_A g) (st_F g)
         (st_A2 g) v (st_Fsum g) (st_Nsum g).
Definition set_Fsum (v : list Q) (g : grid) : grid :=
  mkGrid (initialized g) (st_W g) (st_H g) (st_N g) (st_A g) (st_F g)
         (st_A2 g) (st_gen g) v (st_Nsum g).
Definition set_Nsum (v : list Z) (g : grid) : grid :=
  mkGrid (initialized g) (st_W g) (st_H g) (st_N g) (st_A g) (st_F g)
         (st_A2 g) (st_gen g) (st_Fsum g) v.

(** The module-level declarations: [initialized = false], [W = H = N = 0],
    empty arrays, [gen = 0]. *)
Definition grid0 : grid := mkGrid false 0 0 0 [] [] [] 0 [] [].

(** The tunables read by [step]. *)
Record rules : Type := mkRules {
  tau : Q;
  sigma : Q;
  alpha : Q;
  beta : Q;
  kappa : Q;
  d : Q;
  delta : Q;
  w0 : Q;
  w1 : Q
}.

(** Visualization constants. *)
Definition F_VIS_CAP : Q := 1.5.
Definition DEAD_SOIL_TINT : Z * Z * Z := (30, 26, 18).
Definition SOIL_TINT_SCALE : Q * Q * Q := (0.0, 0.75, 0.2)%Q.
Definition LIVE_COLOR : Z * Z * Z := (230, 255, 230).

(** ** [idx] and [step] *)

Definition idx (g : grid) (x y : Z) : Z := y * st_W g + x.

(** Body of the inner loop of the neighbour pass, at column [x] of row [y]. *)
Definition aggregate_cell (y x : Z) (g : grid) : grid :=
  let Wm1 := st_W g - 1 in
  let Hm1 := st_H g - 1 in
  let yu := if y =? 0 then Hm1 else y - 1 in
  let yd := if y =? Hm1 then 0 else y + 1 in
  let xl := if x =? 0 then Wm1 else x - 1 in
  let xr := if x =? Wm1 then 0 else x + 1 in
  let p0 := idx g xl yu in
  let p1 := idx g x yu in
  let p2 := idx g xr yu in
  let p3 := idx g xl y in
  let p5 := idx g xr y in
  let p6 := idx g xl yd in
  let p7 := idx g x yd in
  let p8 := idx g xr yd in
  let i := idx g x y in
  let A := rd 0 (st_A g) in
  let n := A p0 + A p1 + A p2 + A p3 + A p5 + A p6 + A p7 + A p8 in
  let g := set_Nsum (wr (st_Nsum g) i (to_uint8 n)) g in
  let F := rd 0%Q (st_F g) in
  let fs := (F p0 + F p1 + F p2 + F p3 + F p5 + F p6 + F p7 + F p8)%Q in
  set_Fsum (wr (st_Fsum g) i fs) g.

(** The neighbour pass: rows [0 .. H-1], in each row columns [0 .. W-1]. *)
Definition aggregate (g : grid) : grid :=
  fold_left
    (fun g y => fold_left (fun g x => aggregate_cell y x g) (upto (st_W g)) g)
    (upto (st_H g)) g.

(** Body of the transition loop at cell [i]; the second component is the
    local [aliveNext]. *)
Definition transition_cell (r : rules) (i : Z) (s : grid * Z) : grid * Z :=
  let '(g, aliveNext) := s in
  let n := rd 0 (st_Nsum g) i in
  let favg := (rd 0 (st_Fsum g) i * (1 / 8))%Q in
  let E := (w0 r * rd 0 (st_F g) i + w1 r * favg)%Q in
  let a := rd 0 (st_A g) i in
  let birth := (a =? 0) && (n =? 3) && Qle_bool (tau r) E in
  let survive := (a =? 1) && ((n =? 2) || (n =? 3)) && Qle_bool (sigma r) E in
  let aNext := if birth || survive then 1 else 0 in
  let g := set_A2 (wr (st_A2 g) i aNext) g in
  let aliveNext := if aNext =? 0 then aliveNext else aliveNext + 1 in
  let g :=
    if (a =? 1) && (aNext =? 0)
    then set_F (wr (st_F g) i (rd 0 (st_F g) i + alpha r)%Q) g
    else g in
  let g :=
    if (a =? 0) && (aNext =? 1)
    then set_F (wr (st_F g) i (Math_max 0 (rd 0 (st_F g) i - beta r)%Q)) g
    else g in
  let g :=
    if (a =? 1) && (aNext =? 1)
    then set_F (wr (st_F g) i (Math_max 0 (rd 0 (st_F g) i - kappa r)%Q)) g
    else g in
  (g, aliveNext).

Definition transitions (r : rules) (g : grid) : grid * Z :=
  fold_left (fun s i => transition_cell r i s) (upto (st_N g)) (g, 0).

(** Body of the diffusion and decay loop at cell [i]. *)
Definition diffuse_cell (r : rules) (i : Z) (g : grid) : grid :=
  let favg := (rd 0 (st_Fsum g) i * (1 / 8))%Q in
  let Fi := rd 0%Q (st_F g) i in
  set_F (wr (st_F g) i
            (Math_max 0 ((Fi + d r * (favg - Fi)) * (1 - delta r))%Q)) g.

Definition diffuse (r : rules) (g : grid) : grid :=
  fold_left (fun g i => diffuse_cell r i g) (upto (st_N g)) g.

(** Swap of the two liveness buffers. *)
Definition swap_buffers (g : grid) : grid :=
  let tmp := st_A g in
  let g := set_A (st_A2 g) g in
  set_A2 tmp g.

(** [step()]: the new grid and the returned [aliveNext]. *)
Definition step (r : rules) (g : grid) : grid * Z :=
  let g := aggregate g in
  let '(g, aliveNext) := transitions r g in
  let g := diffuse r g in
  let g := swap_buffers g in
  let g := set_gen (st_gen g + 1) g in
  (g, aliveNext).

(** ** [renderFrame] and [postFrame] *)

(** Body of the pixel loop at cell [i]; [out] is the [Uint8ClampedArray]. *)
Definition render_cell `{Host} (g : grid) (i : Z) (out : list Z) : list Z :=
  let '(tint_r, tint_g, tint_b) := DEAD_SOIL_TINT in
  let '(scale_r, scale_g, scale_b) := SOIL_TINT_SCALE in
  let '(live_r, live_g, live_b) := LIVE_COLOR in
  let t := Math_min (rd 0 (st_F g) i / F_VIS_CAP)%Q 1 in
  let c := Math_sqrt t in
  let r := num_offset tint_r (Math_round (num_scale (scale_r * 255) c)) in
  let gr := num_offset tint_g (Math_round (num_scale (scale_g * 255) c)) in
  let b := num_offset tint_b (Math_round (num_scale (scale_b * 255) c)) in
  let '(r, gr, b) :=
    if rd 0 (st_A g) i =? 1
    then (Num live_r, Num live_g, Num live_b)
    else (r, gr, b) in
  let j := i * 4 in
  let out := wr out (j + 0) (to_uint8_clamp r) in
  let out := wr out (j + 1) (to_uint8_clamp gr) in
  let out := wr out (j + 2) (to_uint8_clamp b) in
  wr out (j + 3) (to_uint8_clamp (Num 255)).

(** [renderFrame()]: the pixels, or the [RangeError] of the allocation. *)
Definition renderFrame `{Host} (g : grid) : exn + list Z :=
  match new_array 0 (st_N g * 4) with
  | inl e => inl e
  | inr out => inr (fold_left (fun out i => render_cell g i out) (upto (st_N g)) out)
  end.

Inductive FrameSource : Type :=
| src_init | src_step | src_render | src_clear | src_reset.

(** The message posted to the host. *)
Record frame : Type := mkFrame {
  source : FrameSource;
  width : Z;
  height : Z;
  generation : Z;
  alive : Z;
  buffer : list Z
}.

(** What handling one message shows to the host: nothing, a posted frame,
    or an uncaught exception (the worker's error event). *)
Inductive reply : Type :=
| NoReply
| Posted (f : frame)
| Uncaught (e : exn).

Definition postFrame `{Host} (aliveCount : Z) (src : FrameSource) (g : grid)
  : reply :=
  match renderFrame g with
  | inl e => Uncaught e
  | inr pixels =>
      Posted (mkFrame src (st_W g) (st_H g) (st_gen g) aliveCount pixels)
  end.

(** [A.reduce((s, v) => s + v, 0)] *)
Definition alive_sum (a : list Z) : Z := fold_left Z.add a 0.

(** The [setCell] case, the same in both revisions.  The message type gives
    [v] the type [0 | 1]. *)
Definition setCell (x y : Z) (v : bool) (g : grid) : grid :=
  if (0 <=? x) && (0 <=? y) && (x <? st_W g) && (y <? st_H g)
  then set_A (wr (st_A g) (idx g x y) (Z.b2z v)) g
  else g.

(** ** First revision: constant tunables, [clear] *)

Module Rev1.

Definition tunables : rules :=
  {| alpha := 1.2; tau := 0.55; sigma := 0.08; beta := 0.6; kappa := 0.04;
     d := 0.3; delta := 0.008; w0 := 0.6; w1 := 0.4 |}.

Inductive InMsg : Type :=
| Init (width height : Z)
| Step
| Render
| SetCell (x y : Z) (v : bool)
| Clear.

(** [ensureArrays]: the grid it leaves and the exception raised, if any. *)
Definition ensureArrays (width height : Z) (g : grid) : grid * option exn :=
  let g := set_W width g in
  let g := set_H height g in
  let g := set_N (st_W g * st_H g) g in
  match new_array 0 (st_N g) with inl e => (g, Some e) | inr a =>
  let g := set_A a g in
  match new_array 0%Q (st_N g) with inl e => (g, Some e) | inr f =>
  let g := set_F f g in
  match new_array 0 (st_N g) with inl e => (g, Some e) | inr a2 =>
  let g := set_A2 a2 g in
  match new_array 0%Q (st_N g) with inl e => (g, Some e) | inr fsum =>
  let g := set_Fsum fsum g in
  match new_array 0 (st_N g) with inl e => (g, Some e) | inr nsum =>
  let g := set_Nsum nsum g in
  let g := set_gen 0 g in
  let g := set_initialized true g in
  (g, None)
  end end end end end.

Definition onmessage `{Host} (msg : InMsg) (g : grid) : grid * reply :=
  match msg with
  | Init width height =>
      match ensureArrays width height g with
      | (g, Some e) => (g, Uncaught e)
      | (g, None) => (g, postFrame 0 src_init g)
      end
  | Step =>
      if negb (initialized g) then (g, NoReply) else
      let '(g, alive) := step tunables g in
      (g, postFrame alive src_step g)
  | Render =>
      if negb (initialized g) then (g, NoReply) else
      (g, postFrame (alive_sum (st_A g)) src_render g)
  | SetCell x y v =>
      if negb (initialized g) then (g, NoReply) else
      (setCell x y v g, NoReply)
  | Clear =>
      if negb (initialized g) then (g, NoReply) else
      let g := set_A (fill (st_A g) 0) g in
      let g := set_F (fill (st_F g) 0%Q) g in
      let g := set_gen 0 g in
      (g, postFrame 0 src_clear g)
  end.

(** The worker after a sequence of messages, with the replies it gave. *)
Definition run `{Host} (msgs : list InMsg) : grid * list reply :=
  fold_left
    (fun s msg => let '(g, out) := onmessage msg s.1 in (g, s.2 ++ [out]))
    msgs (grid0, []).

Definition reachable `{Host} (g : grid) : Prop :=
  exists msgs, (run msgs).1 = g.

End Rev1.

(** ** Second revision: runtime tunables, [reset], [setParams] *)

Module Rev2.

(** The module-level variables: the grid, [f0] and the tunables. *)
Record state : Type := mkState {
  cells : grid;
  f0 : Q;
  tunables : rules
}.

Definition state0 : state :=
  {| cells := grid0;
     f0 := 0.7;
     tunables :=
       {| tau := 0.5; sigma := 0.1; alpha := 1.0; beta := 0.4;
          kappa := 0.03; d := 0.3; delta := 0.008; w0 := 0.6;
          w1 := 1 - 0.6 |} |}.

(** [Partial<{f0, tau, ...}>]: an absent field is [undefined]. *)
Record Params : Type := mkParams {
  p_f0 : option Q;
  p_tau : option Q;
  p_sigma : option Q;
  p_alpha : option Q;
  p_beta : option Q;
  p_kappa : option Q;
  p_d : option Q;
  p_delta : option Q;
  p_w0 : option Q
}.

Inductive InMsg : Type :=
| Init (width height : Z)
| Step
| Render
| Reset
| SetCell (x y : Z) (v : bool)
| SetParams (params : Params).

Definition ensureArrays (width height : Z) (s : state) : state * option exn :=
  let g := cells s in
  let throw g e := (mkState g (f0 s) (tunables s), Some e) in
  let g := set_W width g in
  let g := set_H height g in
  let g := set_N (st_W g * st_H g) g in
  match new_array 0 (st_N g) with inl e => throw g e | inr a =>
  let g := set_A a g in
  match new_array 0%Q (st_N g) with inl e => throw g e | inr f =>
  let g := set_F f g in
  let g := set_F (fill (st_F g) (f0 s)) g in
  match new_array 0 (st_N g) with inl e => throw g e | inr a2 =>
  let g := set_A2 a2 g in
  match new_array 0%Q (st_N g) with inl e => throw g e | inr fsum =>
  let g := set_Fsum fsum g in
  match new_array 0 (st_N g) with inl e => throw g e | inr nsum =>
  let g := set_Nsum nsum g in
  let g := set_gen 0 g in
  let g := set_initialized true g in
  (mkState g (f0 s) (tunables s), None)
  end end end end end.

(** [if (p.x !== undefined) x = p.x] *)
Definition assign (p : option Q) (old : Q) : Q :=
  match p with Some v => v | None => old end.

(** The [setParams] case. *)
Definition setParams (p : Params) (s : state) : state :=
  let r := tunables s in
  let f0' := assign (p_f0 p) (f0 s) in
  let tau' := assign (p_tau p) (tau r) in
  let sigma' := assign (p_sigma p) (sigma r) in
  let alpha' := assign (p_alpha p) (alpha r) in
  let beta' := assign (p_beta p) (beta r) in
  let kappa' := assign (p_kappa p) (kappa r) in
  let d' := assign (p_d p) (d r) in
  let delta' := assign (p_delta p) (delta r) in
  let '(w0', w1') :=
    match p_w0 p with
    | Some v =>
        let w0' := Math_max 0 (Math_min 1 v) in
        (w0', (1 - w0')%Q)
    | None => (w0 r, w1 r)
    end in
  {| cells := cells s;
     f0 := f0';
     tunables :=
       {| tau := tau'; sigma := sigma'; alpha := alpha'; beta := beta';
          kappa := kappa'; d := d'; delta := delta'; w0 := w0'; w1 := w1' |} |}.

Definition with_cells (s : state) (g : grid) : state :=
  mkState g (f0 s) (tunables s).

Definition onmessage `{Host} (msg : InMsg) (s : state) : state * reply :=
  match msg with
  | Init width height =>
      match ensureArrays width height s with
      | (s, Some e) => (s, Uncaught e)
      | (s, None) => (s, postFrame 0 src_init (cells s))
      end
  | Step =>
      if negb (initialized (cells s)) then (s, NoReply) else
      let '(g, alive) := step (tunables s) (cells s) in
      (with_cells s g, postFrame alive src_step g)
  | Render =>
      if negb (initialized (cells s)) then (s, NoReply) else
      (s, postFrame (alive_sum (st_A (cells s))) src_render (cells s))
  | Reset =>
      if negb (initialized (cells s)) then (s, NoReply) else
      let g := cells s in
      let g := set_A (fill (st_A g) 0) g in
      let g := set_F (fill (st_F g) (f0 s)) g in
      let g := set_gen 0 g in
      (with_cells s g, postFrame 0 src_reset g)
  | SetCell x y v =>
      if negb (initialized (cells s)) then (s, NoReply) else
      (with_cells s (setCell x y v (cells s)), NoReply)
  | SetParams p =>
      (setParams p s, NoReply)
  end.

(** The worker after a sequence of messages, with the replies it gave. *)
Definition run `{Host} (msgs : list InMsg) : state * list reply :=
  fold_left
    (fun s msg => let '(s', out) := onmessage msg s.1 in (s', s.2 ++ [out]))
    msgs (state0, []).

Definition reachable `{Host} (s : state) : Prop :=
  exists msgs, (run msgs).1 = s.

End Rev2.

(** ** The vocabulary of the specification *)

(** The toroidal 8-neighbourhood of [(x, y)]: the eight offsets, each
    coordinate wrapped around its axis (column [-1] is column [W-1], column
    [W] is column [0], and the same for rows). *)
Definition offsets : list (Z * Z) :=
  [(-1, -1); (0, -1); (1, -1); (-1, 0); (1, 0); (-1, 1); (0, 1); (1, 1)].

Definition torus_neighbours (g : grid) (x y : Z) : list (Z * Z) :=
  (fun o => ((x + o.1) mod st_W g, (y + o.2) mod st_H g)) <$> offsets.

(** Number of live cells, and sum of the fertility, over the neighbourhood. *)
Definition neighbour_alive_count (g : grid) (x y : Z) : Z :=
  fold_right Z.add 0
    ((fun c => rd 0 (st_A g) (idx g c.1 c.2)) <$> torus_neighbours g x y).

Definition neighbour_fertility_sum (g : grid) (x y : Z) : Q :=
  fold_right Qplus 0%Q
    ((fun c => rd 0%Q (st_F g) (idx g c.1 c.2)) <$> torus_neighbours g x y).

(** The eight cells that the specification names as the neighbours of
    [(0, 0)]. *)
Definition origin_neighbours (g : grid) : list (Z * Z) :=
  let Wd := st_W g in
  let Ht := st_H g in
  [(Wd - 1, Ht - 1); (Wd - 1, 0); (0, Ht - 1); (1, 0); (0, 1); (1, 1);
   (Wd - 1, 1); (1, Ht - 1)].

Definition is_origin_neighbour (g : grid) (x y : Z) : bool :=
  existsb (fun c => (c.1 =? x) && (c.2 =? y)) (origin_neighbours g).

(** "The only live cell is at (0,0)". *)
Definition only_origin_alive (g : grid) : Prop :=
  forall x y, 0 <= x < st_W g -> 0 <= y < st_H g ->
    rd 0 (st_A g) (idx g x y) = if (x =? 0) && (y =? 0) then 1 else 0.

(** ** Shape of a grid *)

Definition binary (a : list Z) : Prop := Forall (fun v => v = 0 \/ v = 1) a.

(** All five buffers have [N] entries. *)
Definition sized (g : grid) : Prop :=
  Z.of_nat (length (st_A g)) = st_N g /\
  Z.of_nat (length (st_F g)) = st_N g /\
  Z.of_nat (length (st_A2 g)) = st_N g /\
  Z.of_nat (length (st_Fsum g)) = st_N g /\
  Z.of_nat (length (st_Nsum g)) = st_N g.

(** A grid as [ensureArrays] leaves it for positive dimensions. *)
Definition well_formed (g : grid) : Prop :=
  0 < st_W g /\ 0 < st_H g /\ st_N g = st_W g * st_H g /\ sized g /\
  binary (st_A g).

(** What every handled message preserves, whatever the dimensions. *)
Definition consistent (g : grid) : Prop :=
  st_N g = st_W g * st_H g /\ (0 <= st_N g -> sized g) /\
  binary (st_A g) /\ binary (st_A2 g).

(** ** The values stored by the loop bodies

    Each loop body of [step] writes one entry of the arrays it updates.
    These are the written values as functions of the values the body reads;
    [aggregate_cell_stores], [transition_cell_stores] and
    [diffuse_cell_stores] relate them to the bodies. *)

(** [add]-sum, left to right, of [f] at the eight indices [p0 .. p8] that
    the neighbour pass computes for [(x, y)] on a [Wd] by [Ht] grid. *)
Definition over_neighbours {T : Type} (add : T -> T -> T) (f : Z -> T)
    (Wd Ht x y : Z) : T :=
  let yu := if y =? 0 then Ht - 1 else y - 1 in
  let yd := if y =? Ht - 1 then 0 else y + 1 in
  let xl := if x =? 0 then Wd - 1 else x - 1 in
  let xr := if x =? Wd - 1 then 0 else x + 1 in
  let ix x y := y * Wd + x in
  add (add (add (add (add (add (add
    (f (ix xl yu)) (f (ix x yu))) (f (ix xr yu))) (f (ix xl y)))
    (f (ix xr y))) (f (ix xl yd))) (f (ix x yd))) (f (ix xr yd)).

Definition stored_Nsum (g : grid) (x y : Z) : Z :=
  to_uint8 (over_neighbours Z.add (rd 0 (st_A g)) (st_W g) (st_H g) x y).

Definition stored_Fsum (g : grid) (x y : Z) : Q :=
  over_neighbours Qplus (rd 0%Q (st_F g)) (st_W g) (st_H g) x y.

(** [aNext] from [a = A[i]], [n = Nsum[i]], [f = F[i]], [fs = Fsum[i]]. *)
Definition stored_A2 (r : rules) (a n : Z) (f fs : Q) : Z :=
  let favg := (fs * (1 / 8))%Q in
  let E := (w0 r * f + w1 r * favg)%Q in
  let birth := (a =? 0) && (n =? 3) && Qle_bool (tau r) E in
  let survive := (a =? 1) && ((n =? 2) || (n =? 3)) && Qle_bool (sigma r) E in
  if birth || survive then 1 else 0.

(** [F[i]] after the soil bookkeeping. *)
Definition booked_F (r : rules) (a aNext : Z) (f : Q) : Q :=
  if (a =? 1) && (aNext =? 0) then (f + alpha r)%Q
  else if (a =? 0) && (aNext =? 1) then Math_max 0 (f - beta r)%Q
  else if (a =? 1) && (aNext =? 1) then Math_max 0 (f - kappa r)%Q
  else f.

(** [F[i]] after diffusion and decay, from [f = F[i]] and [fs = Fsum[i]]. *)
Definition diffused_F (r : rules) (f fs : Q) : Q :=
  let favg := (fs * (1 / 8))%Q in
  Math_max 0 ((f + d r * (favg - f)) * (1 - delta r))%Q.

(** ** Sample runs *)

(** The second revision after [init] of a 4 by 4 grid and three [setCell]
    messages that bring a row of three cells to life; and the tunables the
    worker starts with. *)
Definition blinker_state : Rev2.state :=
  (@Rev2.run dyadic_host
     [Rev2.Init 4 4; Rev2.SetCell 0 1 true; Rev2.SetCell 1 1 true;
      Rev2.SetCell 2 1 true]).1.

Definition default_rules : rules := Rev2.tunables Rev2.state0.

(** A fresh [w] by [h] grid of the first revision whose only live cell is
    [(0, 0)]. *)
Definition single_cell_grid (w h : Z) : grid :=
  setCell 0 0 true (Rev1.ensureArrays w h grid0).1.

(** ** Several ticks, and Conway's rule *)

(** The grid after [n] calls of [step]. *)
Definition steps (r : rules) (n : nat) (g : grid) : grid :=
  Nat.iter n (fun g => (step r g).1) g.


(** The four bytes of cell [i] in a pixel buffer. *)
Definition pixel (px : list Z) (i : Z) : Z * Z * Z * Z :=
  (rd 0 px (4 * i), rd 0 px (4 * i + 1), rd 0 px (4 * i + 2),
   rd 0 px (4 * i + 3)).

(** The second revision right after [init] of a 4 by 4 grid. *)
Definition fresh_state : Rev2.state :=
  (@Rev2.run dyadic_host [Rev2.Init 4 4]).1.


(** ** The page: [App.vue]

    The script of the page that drives the worker of the second revision.
    Its module-level variables are grouped in three records: the transport
    ([worker], [playing], [speed], the step timer, [stepInFlight], the
    counters shown), the viewport ([cellSize], [offsetX], [offsetY]) and the
    pointer state.  A handler is a function of the records it reads that
    returns the records it writes and the messages it posts to the worker, in
    order.  The canvas is taken as mounted.  Drawing on the canvas, the
    cursor style and pointer capture are not modelled; a running interval
    timer is represented by its period. *)

Module App.

Definition WIDTH : Z := 200.
Definition HEIGHT : Z := 200.

(** The reactive [params] object. *)
Record UiParams : Type := mkUiParams {
  f0 : Q;
  tau : Q;
  sigma : Q;
  alpha : Q;
  beta : Q;
  kappa : Q;
  d : Q;
  delta : Q;
  w0 : Q
}.

Definition params0 : UiParams :=
  {| f0 := 0.7; tau := 0.5; sigma := 0.1; alpha := 1.0; beta := 0.4;
     kappa := 0.03; d := 0.3; delta := 0.008; w0 := 0.6 |}.

Definition cellSizeMin : Q := 2.
Definition cellSizeMax : Q := 24.

Definition clamp (v lo hi : Q) : Q := Math_max lo (Math_min hi v).

Record transport : Type := mkTransport {
  worker : bool;            (* [worker !== null] *)
  playing : bool;
  speed : Q;
  stepTimer : option Z;     (* the period of the running interval, in ms *)
  stepInFlight : bool;
  generation : Z;
  aliveCount : Z;
  lastFrame : option frame
}.

Definition transport0 : transport :=
  mkTransport false false 20 None false 0 0 None.

(** [sendParams()] *)
Definition sendParams (worker : bool) (params : UiParams) : list Rev2.InMsg :=
  if negb worker then [] else
  let p :=
    {| Rev2.p_f0 := Some (f0 params);
       Rev2.p_tau := Some (tau params);
       Rev2.p_sigma := Some (sigma params);
       Rev2.p_alpha := Some (alpha params);
       Rev2.p_beta := Some (beta params);
       Rev2.p_kappa := Some (kappa params);
       Rev2.p_d := Some (d params);
       Rev2.p_delta := Some (delta params);
       Rev2.p_w0 := Some (clamp (w0 params) 0 1) |} in
  [Rev2.SetParams p].


(** The [worker.onmessage] handler of the page, for a frame. *)
Definition onFrame (msg : frame) (t : transport) : transport :=
  let '(mkFrame source width height gen alive buffer) := msg in
  let inflight :=
    match source with src_step => false | _ => stepInFlight t end in
  mkTransport (worker t) (playing t) (speed t) (stepTimer t) inflight
    gen alive (Some msg).

Definition requestStep (t : transport) : transport * list Rev2.InMsg :=
  if negb (worker t) || stepInFlight t then (t, []) else
  (mkTransport (worker t) (playing t) (speed t) (stepTimer t) true
     (generation t) (aliveCount t) (lastFrame t),
   [Rev2.Step]).

Definition requestRender (worker : bool) : list Rev2.InMsg :=
  if negb worker then [] else [Rev2.Render].

Definition setCell (worker : bool) (x y : Z) (v : bool) : list Rev2.InMsg :=
  if negb worker then [] else [Rev2.SetCell x y v].

Definition pause (t : transport) : transport :=
  mkTransport (worker t) false (speed t) None (stepInFlight t)
    (generation t) (aliveCount t) (lastFrame t).

(** The period [applySpeed] gives the interval timer. *)
Definition interval_ms (speed : Q) : Z :=
  Z.max 1 (Qfloor (1000 / clamp speed 1 60 + (1 # 2))).

Definition applySpeed (t : transport) : transport :=
  if negb (playing t) then t else
  let ms := interval_ms (speed t) in
  mkTransport (worker t) (playing t) (speed t) (Some ms) (stepInFlight t)
    (generation t) (aliveCount t) (lastFrame t).

Definition play (t : transport) : transport :=
  if playing t then t else
  applySpeed
    (mkTransport (worker t) true (speed t) (stepTimer t) (stepInFlight t)
       (generation t) (aliveCount t) (lastFrame t)).

Definition togglePlay (t : transport) : transport :=
  if playing t then pause t else play t.

Definition stepOnce (t : transport) : transport * list Rev2.InMsg :=
  if playing t then (t, []) else requestStep t.

Definition resetAll (t : transport) : transport * list Rev2.InMsg :=
  let t := pause t in
  (mkTransport (worker t) (playing t) (speed t) (stepTimer t)
     (stepInFlight t) 0 0 (lastFrame t),
   if worker t then [Rev2.Reset] else []).

(** What can happen to the transport: the buttons, a firing of the interval
    timer, and a frame from the worker. *)
Inductive event : Type :=
| EvTogglePlay
| EvStepOnce
| EvReset
| EvTick
| EvFrame (msg : frame).

Definition handle (ev : event) (t : transport) : transport * list Rev2.InMsg :=
  match ev with
  | EvTogglePlay => (togglePlay t, [])
  | EvStepOnce => stepOnce t
  | EvReset => resetAll t
  | EvTick =>
      match stepTimer t with
      | Some _ => requestStep t
      | None => (t, [])
      end
  | EvFrame msg => (onFrame msg t, [])
  end.

(** The transport after a sequence of events, with every message posted. *)
Definition handle_all (evs : list event) (t : transport)
  : transport * list Rev2.InMsg :=
  fold_left
    (fun s ev => let '(t', msgs) := handle ev s.1 in (t', s.2 ++ msgs))
    evs (t, []).

Record viewport : Type := mkViewport {
  cellSize : Q;
  offsetX : Q;
  offsetY : Q
}.

(** [canvas.getBoundingClientRect()] *)
Record DOMRect : Type := mkRect {
  rect_left : Q;
  rect_top : Q
}.

Record PointerEvent : Type := mkPointerEvent {
  clientX : Q;
  clientY : Q;
  button : Z;
  altKey : bool
}.


Definition screenToCell (rect : DOMRect) (vp : viewport) (ev : PointerEvent)
  : option (Z * Z) :=
  let x := ((clientX ev - rect_left rect - offsetX vp) / cellSize vp)%Q in
  let y := ((clientY ev - rect_top rect - offsetY vp) / cellSize vp)%Q in
  let cx := Qfloor x in
  let cy := Qfloor y in
  if (cx <? 0) || (cy <? 0) || (cx >=? WIDTH) || (cy >=? HEIGHT)
  then None
  else Some (cx, cy).

Record pointer : Type := mkPointer {
  isPanning : bool;
  isDrawing : bool;
  drawValue : bool;          (* [0 | 1] *)
  lastPaintedKey : Z;
  spaceHeld : bool;
  panAnchor : Q * Q;
  panOffsetStart : Q * Q
}.

Definition onPointerDown (worker : bool) (rect : DOMRect) (ev : PointerEvent)
    (vp : viewport) (ps : pointer) : pointer * list Rev2.InMsg :=
  let panBtn := (button ev =? 1) || spaceHeld ps in
  if panBtn then
    (mkPointer true (isDrawing ps) (drawValue ps) (lastPaintedKey ps)
       (spaceHeld ps) (clientX ev, clientY ev) (offsetX vp, offsetY vp),
     [])
  else
    let drawValue := if (button ev =? 2) || altKey ev then false else true in
    let ps := mkPointer (isPanning ps) true drawValue (lastPaintedKey ps)
                (spaceHeld ps) (panAnchor ps) (panOffsetStart ps) in
    match screenToCell rect vp ev with
    | Some (cx, cy) =>
        (mkPointer (isPanning ps) (isDrawing ps) drawValue (cy * WIDTH + cx)
           (spaceHeld ps) (panAnchor ps) (panOffsetStart ps),
         setCell worker cx cy drawValue ++ requestRender worker)
    | None => (ps, [])
    end.

Definition onPointerMove (worker : bool) (rect : DOMRect) (ev : PointerEvent)
    (vp : viewport) (ps : pointer) : viewport * pointer * list Rev2.InMsg :=
  if isPanning ps then
    (mkViewport (cellSize vp)
       ((panOffsetStart ps).1 + (clientX ev - (panAnchor ps).1))%Q
       ((panOffsetStart ps).2 + (clientY ev - (panAnchor ps).2))%Q,
     ps, [])
  else if negb (isDrawing ps) then (vp, ps, [])
  else
    match screenToCell rect vp ev with
    | Some (cx, cy) =>
        let key := cy * WIDTH + cx in
        if key =? lastPaintedKey ps then (vp, ps, [])
        else
          (vp,
           mkPointer (isPanning ps) (isDrawing ps) (drawValue ps) key
             (spaceHeld ps) (panAnchor ps) (panOffsetStart ps),
           setCell worker cx cy (drawValue ps) ++ requestRender worker)
    | None => (vp, ps, [])
    end.

Definition onPointerUp (ps : pointer) : pointer :=
  mkPointer false false (drawValue ps) (-1) (spaceHeld ps) (panAnchor ps)
    (panOffsetStart ps).



Definition zoomIn (vp : viewport) : viewport :=
  mkViewport (clamp (cellSize vp + 0.5) cellSizeMin cellSizeMax)
    (offsetX vp) (offsetY vp).

Definition zoomOut (vp : viewport) : viewport :=
  mkViewport (clamp (cellSize vp - 0.5) cellSizeMin cellSizeMax)
    (offsetX vp) (offsetY vp).

End App.

(** A message that painting may post: [render], or [setCell] for a cell of
    the page's grid. *)
Definition paints_on_grid (msg : Rev2.InMsg) : Prop :=
  match msg with
  | Rev2.Render => True
  | Rev2.SetCell x y _ => 0 <= x < App.WIDTH /\ 0 <= y < App.HEIGHT
  | _ => False
  end.

(** The worker after the messages [msgs], from the state [s]. *)
Definition deliver `{Host} (msgs : list Rev2.InMsg) (s : Rev2.state)
  : Rev2.state :=
  fold_left (fun s msg => (Rev2.onmessage msg s).1) msgs s.

(** Number of [step] messages among the messages posted, and of frames
    answering a [step] among the events received. *)
Definition steps_posted (msgs : list Rev2.InMsg) : Z :=
  fold_right (fun msg n => match msg with Rev2.Step => n + 1 | _ => n end)
    0 msgs.

Definition step_frames (evs : list App.event) : Z :=
  fold_right
    (fun ev n =>
       match ev with
       | App.EvFrame msg =>
           match source msg with src_step => n + 1 | _ => n end
       | _ => n
       end)
    0 evs.

(** * Properties *)

(** Decides every integer comparison of the goal that linear arithmetic
    settles. *)
Ltac settle_eqb :=
  repeat (match goal with
          | |- context [?a =? ?b] =>
              first [ rewrite (proj2 (Z.eqb_eq a b)) by lia
                    | rewrite (proj2 (Z.eqb_neq a b)) by lia ]
          end; cbv iota).

(** ** Typed-array reads and stores *)

Section Arrays.
Context {T : Type} (zero : T).
Implicit Types (a : list T) (i j : Z) (v : T).

Lemma length_wr a i v : length (wr a i v) = length a.
Proof. unfold wr. destruct (i <? 0); [done | apply length_insert]. Qed.

Lemma rd_wr_eq a i v :
  0 <= i < Z.of_nat (length a) -> rd zero (wr a i v) i = v.
Proof.
  intros Hi. unfold rd, wr.
  destruct (Z.ltb_spec i 0); [lia |].
  rewrite list_lookup_insert_eq; [done | lia].
Qed.

Lemma rd_wr_ne a i j v : i <> j -> rd zero (wr a i v) j = rd zero a j.
Proof.
  intros Hij. unfold rd, wr.
  destruct (Z.ltb_spec j 0); [done |].
  destruct (Z.ltb_spec i 0); [done |].
  rewrite list_lookup_insert_ne; [done | lia].
Qed.

Lemma rd_lookup a i x :
  0 <= i -> a !! Z.to_nat i = Some x -> rd zero a i = x.
Proof.
  intros Hi Hx. unfold rd.
  destruct (Z.ltb_spec i 0); [lia |]. by rewrite Hx.
Qed.

Lemma lookup_rd a (n : nat) x :
  a !! n = Some x -> rd zero a (Z.of_nat n) = x.
Proof.
  intros Hx. apply rd_lookup; [lia |]. by rewrite Nat2Z.id.
Qed.

Lemma rd_replicate (n : nat) v i :
  0 <= i < Z.of_nat n -> rd zero (replicate n v) i = v.
Proof.
  intros Hi. apply rd_lookup; [lia |].
  apply lookup_replicate. split; [done | lia].
Qed.

Lemma length_fill a v : length (fill a v) = length a.
Proof. apply length_replicate. Qed.

(** A property of every in-range read is a property of every element. *)
Lemma Forall_rd (P : T -> Prop) a :
  (forall i, 0 <= i < Z.of_nat (length a) -> P (rd zero a i)) -> Forall P a.
Proof.
  intros Hrd. apply Forall_lookup. intros n x Hx.
  rewrite <- (lookup_rd a n x Hx). apply Hrd.
  apply lookup_lt_Some in Hx. lia.
Qed.

End Arrays.

Lemma new_array_ok {T : Type} (zero : T) (n : Z) :
  0 <= n -> new_array zero n = inr (replicate (Z.to_nat n) zero).
Proof. intros Hn. unfold new_array. by destruct (Z.ltb_spec n 0); [lia |]. Qed.

Lemma new_array_throws {T : Type} (zero : T) (n : Z) :
  n < 0 -> new_array zero n = inl RangeError.
Proof. intros Hn. unfold new_array. by destruct (Z.ltb_spec n 0); [| lia]. Qed.

(** ** [Math.max], [Math.min] *)

Lemma Math_max_lower (a b : Q) : (a <= Math_max a b)%Q.
Proof.
  unfold Math_max. destruct (Qle_bool a b) eqn:E.
  - by apply Qle_bool_iff.
  - apply Qle_refl.
Qed.

Lemma Math_max_cases (a b : Q) :
  ((a <= b)%Q /\ Math_max a b = b) \/ ((b < a)%Q /\ Math_max a b = a).
Proof.
  unfold Math_max. destruct (Qle_bool a b) eqn:E.
  - left. split; [by apply Qle_bool_iff | done].
  - right. split; [| done]. apply Qnot_le_lt. intros Hle.
    apply Qle_bool_iff in Hle. congruence.
Qed.

Lemma Math_min_cases (a b : Q) :
  ((a <= b)%Q /\ Math_min a b = a) \/ ((b < a)%Q /\ Math_min a b = b).
Proof.
  unfold Math_min. destruct (Qle_bool a b) eqn:E.
  - left. split; [by apply Qle_bool_iff | done].
  - right. split; [| done]. apply Qnot_le_lt. intros Hle.
    apply Qle_bool_iff in Hle. congruence.
Qed.

(** ** The rule of the counting loop *)

Lemma upto_nonpos (n : Z) : n <= 0 -> upto n = [].
Proof. intros Hn. unfold upto. by replace (Z.to_nat n) with 0%nat by lia. Qed.

Lemma upto_succ (n : Z) : 0 <= n -> upto (n + 1) = upto n ++ [n].
Proof.
  intros Hn. unfold upto.
  replace (Z.to_nat (n + 1)) with (S (Z.to_nat n)) by lia.
  rewrite seq_S, fmap_app. cbn. f_equal. f_equal. lia.
Qed.

(** An invariant that holds before the loop and is kept by every iteration
    holds after it. *)
Lemma for_loop_invariant {St : Type} (P : Z -> St -> Prop)
    (body : Z -> St -> St) (n : Z) (s0 : St) :
  0 <= n ->
  P 0 s0 ->
  (forall k s, 0 <= k < n -> P k s -> P (k + 1) (body k s)) ->
  P n (fold_left (fun s k => body k s) (upto n) s0).
Proof.
  intros Hn H0 Hstep.
  assert (Hall : forall m : nat, Z.of_nat m <= n ->
            P (Z.of_nat m)
              (fold_left (fun s k => body k s) (upto (Z.of_nat m)) s0)).
  { induction m as [| m IH]; intros Hm.
    - done.
    - replace (Z.of_nat (S m)) with (Z.of_nat m + 1) by lia.
      rewrite upto_succ by lia. rewrite fold_left_app. cbn.
      apply Hstep; [lia |]. apply IH. lia. }
  specialize (Hall (Z.to_nat n)). rewrite Z2Nat.id in Hall by done.
  apply Hall. lia.
Qed.

(** A property kept by every iteration is kept by the loop. *)
Lemma loop_preserves {St K : Type} (P : St -> Prop) (body : K -> St -> St)
    (ks : list K) (s0 : St) :
  P s0 -> (forall k s, P s -> P (body k s)) ->
  P (fold_left (fun s k => body k s) ks s0).
Proof.
  intros H0 Hstep. revert s0 H0.
  induction ks as [| k ks IH]; intros s0 H0; cbn; [done |].
  apply IH. by apply Hstep.
Qed.

(** ** Cell indices *)

Lemma idx_in_range (g : grid) (x y : Z) :
  st_N g = st_W g * st_H g ->
  0 <= x < st_W g -> 0 <= y < st_H g -> 0 <= idx g x y < st_N g.
Proof. unfold idx. intros -> Hx Hy. nia. Qed.

Lemma idx_injective (g : grid) (x y x' y' : Z) :
  0 <= x < st_W g -> 0 <= x' < st_W g ->
  idx g x y = idx g x' y' -> x = x' /\ y = y'.
Proof.
  unfold idx. intros Hx Hx' Heq.
  assert (y = y') as ->; [| lia].
  destruct (Z.lt_trichotomy y y') as [Hlt | [Heq' | Hgt]]; [| done |].
  - assert ((y + 1) * st_W g <= y' * st_W g) by (apply Z.mul_le_mono_nonneg_r; lia).
    lia.
  - assert ((y' + 1) * st_W g <= y * st_W g) by (apply Z.mul_le_mono_nonneg_r; lia).
    lia.
Qed.

(** Every cell index is the index of one cell [(x, y)]. *)
Lemma idx_surjective (g : grid) (i : Z) :
  0 < st_W g -> st_N g = st_W g * st_H g -> 0 <= i < st_N g ->
  0 <= i mod st_W g < st_W g /\ 0 <= i / st_W g < st_H g /\
  idx g (i mod st_W g) (i / st_W g) = i.
Proof.
  intros HW HN Hi. unfold idx.
  pose proof (Z.mod_pos_bound i (st_W g) HW).
  pose proof (Z.div_mod i (st_W g)).
  assert (0 <= i / st_W g) by (apply Z.div_pos; lia).
  assert (i / st_W g < st_H g) by (apply Z.div_lt_upper_bound; lia).
  lia.
Qed.


(** ** The neighbour pass *)

Lemma aggregate_cell_stores (g : grid) (x y : Z) :
  aggregate_cell y x g =
  set_Fsum (wr (st_Fsum g) (idx g x y) (stored_Fsum g x y))
    (set_Nsum (wr (st_Nsum g) (idx g x y) (stored_Nsum g x y)) g).
Proof. reflexivity. Qed.

(** The pass writes the two scratch buffers and nothing else. *)
Lemma aggregate_frame (g0 : grid) :
  exists ns fs,
    aggregate g0 = set_Fsum fs (set_Nsum ns g0) /\
    length ns = length (st_Nsum g0) /\ length fs = length (st_Fsum g0).
Proof.
  unfold aggregate.
  apply (loop_preserves
    (fun g => exists ns fs, g = set_Fsum fs (set_Nsum ns g0) /\
       length ns = length (st_Nsum g0) /\ length fs = length (st_Fsum g0))
    (fun y g => fold_left (fun g x => aggregate_cell y x g) (upto (st_W g)) g)).
  - exists (st_Nsum g0), (st_Fsum g0). by destruct g0.
  - intros y g Hg.
    apply (loop_preserves
      (fun g => exists ns fs, g = set_Fsum fs (set_Nsum ns g0) /\
         length ns = length (st_Nsum g0) /\ length fs = length (st_Fsum g0))
      (fun x g => aggregate_cell y x g)); [done |].
    clear. intros x g (ns & fs & -> & Hns & Hfs).
    rewrite aggregate_cell_stores. cbn.
    eexists (wr ns _ _), (wr fs _ _). split; [reflexivity |].
    by rewrite !length_wr.
Qed.

(** Cells are visited row by row; [(x', y')] comes before column [k] of
    row [y] when it lies in an earlier row, or in row [y] left of [k]. *)
Lemma aggregate_row (g0 g : grid) (y : Z) :
  st_N g0 = st_W g0 * st_H g0 ->
  Z.of_nat (length (st_Nsum g0)) = st_N g0 ->
  Z.of_nat (length (st_Fsum g0)) = st_N g0 ->
  0 <= st_W g0 -> 0 <= y < st_H g0 ->
  let P (k : Z) (g : grid) :=
    st_W g = st_W g0 /\ st_H g = st_H g0 /\ st_A g = st_A g0 /\
    st_F g = st_F g0 /\
    length (st_Nsum g) = length (st_Nsum g0) /\
    length (st_Fsum g) = length (st_Fsum g0) /\
    forall x' y', 0 <= x' < st_W g0 -> 0 <= y' < st_H g0 ->
      y' < y \/ (y' = y /\ x' < k) ->
      rd 0 (st_Nsum g) (idx g0 x' y') = stored_Nsum g0 x' y' /\
      rd 0%Q (st_Fsum g) (idx g0 x' y') = stored_Fsum g0 x' y' in
  P 0 g ->
  P (st_W g0) (fold_left (fun g x => aggregate_cell y x g) (upto (st_W g0)) g).
Proof.
  intros HN HlN HlF HW Hy P HP.
  apply (for_loop_invariant P (fun x g => aggregate_cell y x g)); [done.. |].
  clear g HP. intros x g Hx (HgW & HgH & HgA & HgF & HgN & HgFs & Hdone).
  rewrite aggregate_cell_stores. unfold P. cbn.
  rewrite !length_wr. do 6 (split; [done |]).
  assert (Hsame : idx g x y = idx g0 x y) by (unfold idx; by rewrite HgW).
  assert (HsN : stored_Nsum g x y = stored_Nsum g0 x y)
    by (unfold stored_Nsum; by rewrite HgW, HgH, HgA).
  assert (HsF : stored_Fsum g x y = stored_Fsum g0 x y)
    by (unfold stored_Fsum; by rewrite HgW, HgH, HgF).
  rewrite Hsame, HsN, HsF.
  pose proof (idx_in_range g0 x y HN Hx Hy) as Hi.
  intros x' y' Hx' Hy' Hbefore.
  destruct (decide (x' = x /\ y' = y)) as [[-> ->] | Hne].
  - rewrite !rd_wr_eq by lia. done.
  - assert (idx g0 x y <> idx g0 x' y').
    { intros Heq. apply idx_injective in Heq; [| lia..]. lia. }
    rewrite !rd_wr_ne by done. apply Hdone; [done.. |]. lia.
Qed.

(** After the pass, both scratch buffers hold at every cell the sums over
    the cell's eight neighbour indices, read from the liveness and the
    fertility the pass started with. *)
Lemma aggregate_values (g0 : grid) :
  st_N g0 = st_W g0 * st_H g0 ->
  Z.of_nat (length (st_Nsum g0)) = st_N g0 ->
  Z.of_nat (length (st_Fsum g0)) = st_N g0 ->
  0 <= st_W g0 -> 0 <= st_H g0 ->
  forall x y, 0 <= x < st_W g0 -> 0 <= y < st_H g0 ->
    rd 0 (st_Nsum (aggregate g0)) (idx g0 x y) = stored_Nsum g0 x y /\
    rd 0%Q (st_Fsum (aggregate g0)) (idx g0 x y) = stored_Fsum g0 x y.
Proof.
  intros HN HlN HlF HW HH.
  pose (P (y : Z) (g : grid) :=
    st_W g = st_W g0 /\ st_H g = st_H g0 /\ st_A g = st_A g0 /\
    st_F g = st_F g0 /\
    length (st_Nsum g) = length (st_Nsum g0) /\
    length (st_Fsum g) = length (st_Fsum g0) /\
    forall x' y', 0 <= x' < st_W g0 -> 0 <= y' < st_H g0 ->
      y' < y ->
      rd 0 (st_Nsum g) (idx g0 x' y') = stored_Nsum g0 x' y' /\
      rd 0%Q (st_Fsum g) (idx g0 x' y') = stored_Fsum g0 x' y').
  assert (Hfinal : P (st_H g0) (aggregate g0)).
  { unfold aggregate.
    apply (for_loop_invariant P
      (fun y g => fold_left (fun g x => aggregate_cell y x g) (upto (st_W g)) g));
      [done | |].
    - unfold P. do 6 (split; [done |]). intros; lia.
    - intros y g Hy (HgW & HgH & HgA & HgF & HgN & HgFs & Hdone).
      rewrite HgW.
      pose proof (aggregate_row g0 g y HN HlN HlF HW Hy) as Hrow.
      cbn zeta in Hrow.
      destruct Hrow as (HW' & HH' & HA' & HF' & HN' & HFs' & Hdone').
      { do 6 (split; [done |]). intros x' y' Hx' Hy' [Hlt | [_ Hlt]]; [| lia].
        by apply Hdone. }
      unfold P. do 6 (split; [done |]).
      intros x' y' Hx' Hy' Hlt. apply Hdone'; [done.. |]. lia. }
  destruct Hfinal as (_ & _ & _ & _ & _ & _ & Hall).
  intros x y Hx Hy. apply Hall; [done.. | lia].
Qed.

(** ** The neighbour pass computes the toroidal neighbourhood *)

Lemma wrap_prev (m k : Z) :
  0 <= k < m -> (k + -1) mod m = if k =? 0 then m - 1 else k - 1.
Proof.
  intros Hk. destruct (Z.eqb_spec k 0) as [-> | Hne].
  - symmetry. apply (Z.mod_unique_pos _ _ (-1)); lia.
  - apply Z.mod_small. lia.
Qed.

Lemma wrap_next (m k : Z) :
  0 <= k < m -> (k + 1) mod m = if k =? m - 1 then 0 else k + 1.
Proof.
  intros Hk. destruct (Z.eqb_spec k (m - 1)) as [-> | Hne].
  - symmetry. apply (Z.mod_unique_pos _ _ 1); lia.
  - apply Z.mod_small. lia.
Qed.

Lemma wrap_same (m k : Z) : 0 <= k < m -> (k + 0) mod m = k.
Proof. intros Hk. rewrite Z.add_0_r. by apply Z.mod_small. Qed.

Lemma binary_rd (a : list Z) (i : Z) :
  binary a -> rd 0 a i = 0 \/ rd 0 a i = 1.
Proof.
  intros Ha. unfold rd. destruct (i <? 0); [by left |].
  destruct (a !! Z.to_nat i) as [v |] eqn:Hv; [| by left].
  exact (Forall_lookup_1 _ _ _ _ Ha Hv).
Qed.

(** The count stored by the pass is the number of live cells in the
    toroidal neighbourhood. *)
Lemma stored_Nsum_refines (g : grid) (x y : Z) :
  binary (st_A g) -> 0 <= x < st_W g -> 0 <= y < st_H g ->
  stored_Nsum g x y = neighbour_alive_count g x y.
Proof.
  intros HA Hx Hy.
  unfold stored_Nsum, over_neighbours, neighbour_alive_count,
    torus_neighbours, offsets.
  cbn [fmap list_fmap fold_right fst snd].
  rewrite !wrap_prev, !wrap_next, !wrap_same by done.
  unfold idx, to_uint8.
  repeat match goal with
  | |- context [rd 0 (st_A g) ?p] =>
      let v := fresh "v" in
      pose proof (binary_rd (st_A g) p HA);
      generalize dependent (rd 0 (st_A g) p); intros v ?
  end.
  rewrite Z.mod_small; lia.
Qed.

(** The sum stored by the pass is the fertility summed over the toroidal
    neighbourhood. *)
Lemma stored_Fsum_refines (g : grid) (x y : Z) :
  0 <= x < st_W g -> 0 <= y < st_H g ->
  (stored_Fsum g x y == neighbour_fertility_sum g x y)%Q.
Proof.
  intros Hx Hy.
  unfold stored_Fsum, over_neighbours, neighbour_fertility_sum,
    torus_neighbours, offsets.
  cbn [fmap list_fmap fold_right fst snd].
  rewrite !wrap_prev, !wrap_next, !wrap_same by done.
  unfold idx. ring.
Qed.

(** ** The transition pass *)

Lemma wr_rd_id {T : Type} (zero : T) (a : list T) (i : Z) :
  wr a i (rd zero a i) = a.
Proof.
  unfold wr, rd. destruct (i <? 0); [done |].
  destruct (a !! Z.to_nat i) as [v |] eqn:Hv; cbn.
  - by apply list_insert_id.
  - apply list_insert_ge. by apply lookup_ge_None.
Qed.

Lemma stored_A2_binary (r : rules) (a n : Z) (f fs : Q) :
  stored_A2 r a n f fs = 0 \/ stored_A2 r a n f fs = 1.
Proof. unfold stored_A2. destruct (_ || _); auto. Qed.

Lemma transition_cell_stores (r : rules) (i : Z) (g : grid) (c : Z) :
  let a := rd 0 (st_A g) i in
  let f := rd 0%Q (st_F g) i in
  let nx := stored_A2 r a (rd 0 (st_Nsum g) i) f (rd 0%Q (st_Fsum g) i) in
  transition_cell r i (g, c) =
  (set_F (wr (st_F g) i (booked_F r a nx f)) (set_A2 (wr (st_A2 g) i nx) g),
   if nx =? 0 then c else c + 1).
Proof.
  intros a f nx. unfold transition_cell. fold a. cbn [st_F set_A2].
  fold f. unfold stored_A2 in nx. cbn zeta in nx. fold nx.
  unfold booked_F.
  assert (Hnx : nx = 0 \/ nx = 1) by apply stored_A2_binary.
  destruct Hnx as [-> | ->];
    destruct (Z.eqb_spec a 1) as [Ha1 | Ha1];
    destruct (Z.eqb_spec a 0) as [Ha0 | Ha0]; try lia; cbn;
    try reflexivity; unfold set_F; cbn; unfold f; by rewrite wr_rd_id.
Qed.

Lemma binary_wr (a : list Z) (i v : Z) :
  binary a -> v = 0 \/ v = 1 -> binary (wr a i v).
Proof.
  intros Ha Hv. unfold wr. destruct (i <? 0); [done |].
  by apply Forall_insert.
Qed.

(** The pass writes the next-liveness buffer and the fertility, and nothing
    else. *)
Lemma transitions_frame (r : rules) (g0 : grid) :
  exists a2 f c,
    transitions r g0 = (set_F f (set_A2 a2 g0), c) /\
    length a2 = length (st_A2 g0) /\ length f = length (st_F g0) /\
    (binary (st_A2 g0) -> binary a2).
Proof.
  unfold transitions.
  apply (loop_preserves
    (fun s : grid * Z => exists a2 f c, s = (set_F f (set_A2 a2 g0), c) /\
       length a2 = length (st_A2 g0) /\ length f = length (st_F g0) /\
       (binary (st_A2 g0) -> binary a2))
    (fun i s => transition_cell r i s)).
  - exists (st_A2 g0), (st_F g0), 0. by destruct g0.
  - intros i s (a2 & f & c & -> & Ha2 & Hf & Hbin).
    rewrite transition_cell_stores. cbn.
    eexists (wr a2 _ _), (wr f _ _), _. split; [reflexivity |].
    rewrite !length_wr. do 2 (split; [done |]).
    intros Hb. apply binary_wr; [by apply Hbin | apply stored_A2_binary].
Qed.

(** After the pass, every cell holds the next liveness and the booked
    fertility computed from the values the pass started with. *)
Lemma transitions_values (r : rules) (g0 : grid) :
  Z.of_nat (length (st_A2 g0)) = st_N g0 ->
  Z.of_nat (length (st_F g0)) = st_N g0 ->
  forall i, 0 <= i < st_N g0 ->
    let a := rd 0 (st_A g0) i in
    let f := rd 0%Q (st_F g0) i in
    let nx := stored_A2 r a (rd 0 (st_Nsum g0) i) f (rd 0%Q (st_Fsum g0) i) in
    rd 0 (st_A2 (transitions r g0).1) i = nx /\
    rd 0%Q (st_F (transitions r g0).1) i = booked_F r a nx f.
Proof.
  intros HlA2 HlF.
  pose (P (k : Z) (s : grid * Z) :=
    st_A s.1 = st_A g0 /\ st_Nsum s.1 = st_Nsum g0 /\
    st_Fsum s.1 = st_Fsum g0 /\
    length (st_A2 s.1) = length (st_A2 g0) /\
    length (st_F s.1) = length (st_F g0) /\
    (forall i, k <= i -> rd 0%Q (st_F s.1) i = rd 0%Q (st_F g0) i) /\
    forall i, 0 <= i < k ->
      let a := rd 0 (st_A g0) i in
      let f := rd 0%Q (st_F g0) i in
      let nx := stored_A2 r a (rd 0 (st_Nsum g0) i) f (rd 0%Q (st_Fsum g0) i) in
      rd 0 (st_A2 s.1) i = nx /\ rd 0%Q (st_F s.1) i = booked_F r a nx f).
  assert (Hfinal : P (st_N g0) (transitions r g0)).
  { destruct (Z.le_gt_cases 0 (st_N g0)) as [HN | HN].
    - unfold transitions.
      apply (for_loop_invariant P (fun i s => transition_cell r i s)); [done | |].
      + unfold P. cbn. do 6 (split; [done |]). intros; lia.
      + intros k [g c] Hk (HA & HNs & HFs & HlA2' & HlF' & Hrest & Hdone).
        cbn [fst] in *. rewrite transition_cell_stores. unfold P.
        cbn [fst st_A st_Nsum st_Fsum st_A2 st_F set_F set_A2].
        rewrite !length_wr. do 5 (split; [done |]).
        rewrite HA, HNs, HFs, (Hrest k) by lia. split.
        * intros i Hi. rewrite rd_wr_ne by lia. apply Hrest. lia.
        * intros i Hi. destruct (decide (i = k)) as [-> | Hne].
          -- cbn zeta. rewrite !rd_wr_eq by lia. done.
          -- rewrite !rd_wr_ne by done. apply Hdone. lia.
    - unfold transitions. rewrite upto_nonpos by lia. cbn.
      unfold P. cbn. do 6 (split; [done |]). intros; lia. }
  destruct Hfinal as (_ & _ & _ & _ & _ & _ & Hall). exact Hall.
Qed.

(** ** The diffusion and decay pass *)

Lemma diffuse_cell_stores (r : rules) (i : Z) (g : grid) :
  diffuse_cell r i g =
  set_F (wr (st_F g) i
           (diffused_F r (rd 0%Q (st_F g) i) (rd 0%Q (st_Fsum g) i))) g.
Proof. reflexivity. Qed.

(** The pass writes the fertility and nothing else. *)
Lemma diffuse_frame (r : rules) (g0 : grid) :
  exists f, diffuse r g0 = set_F f g0 /\ length f = length (st_F g0).
Proof.
  unfold diffuse.
  apply (loop_preserves
    (fun g => exists f, g = set_F f g0 /\ length f = length (st_F g0))
    (fun i g => diffuse_cell r i g)).
  - exists (st_F g0). by destruct g0.
  - intros i g (f & -> & Hf). rewrite diffuse_cell_stores. cbn.
    eexists (wr f _ _). split; [reflexivity |]. by rewrite length_wr.
Qed.

Lemma diffuse_values (r : rules) (g0 : grid) :
  Z.of_nat (length (st_F g0)) = st_N g0 ->
  forall i, 0 <= i < st_N g0 ->
    rd 0%Q (st_F (diffuse r g0)) i =
    diffused_F r (rd 0%Q (st_F g0) i) (rd 0%Q (st_Fsum g0) i).
Proof.
  intros HlF.
  pose (P (k : Z) (g : grid) :=
    st_Fsum g = st_Fsum g0 /\ length (st_F g) = length (st_F g0) /\
    (forall i, k <= i -> rd 0%Q (st_F g) i = rd 0%Q (st_F g0) i) /\
    forall i, 0 <= i < k ->
      rd 0%Q (st_F g) i =
      diffused_F r (rd 0%Q (st_F g0) i) (rd 0%Q (st_Fsum g0) i)).
  assert (Hfinal : P (st_N g0) (diffuse r g0)).
  { destruct (Z.le_gt_cases 0 (st_N g0)) as [HN | HN].
    - unfold diffuse.
      apply (for_loop_invariant P (fun i g => diffuse_cell r i g)); [done | |].
      + unfold P. do 3 (split; [done |]). intros; lia.
      + intros k g Hk (HFs & HlF' & Hrest & Hdone).
        rewrite diffuse_cell_stores. unfold P. cbn [st_Fsum st_F set_F].
        rewrite length_wr. do 2 (split; [done |]).
        rewrite HFs, (Hrest k) by lia. split.
        * intros i Hi. rewrite rd_wr_ne by lia. apply Hrest. lia.
        * intros i Hi. destruct (decide (i = k)) as [-> | Hne].
          -- rewrite rd_wr_eq by lia. done.
          -- rewrite rd_wr_ne by done. apply Hdone. lia.
    - unfold diffuse. rewrite upto_nonpos by lia. cbn.
      unfold P. do 3 (split; [done |]). intros; lia. }
  destruct Hfinal as (_ & _ & _ & Hall). exact Hall.
Qed.

Lemma diffused_F_nonneg (r : rules) (f fs : Q) : (0 <= diffused_F r f fs)%Q.
Proof. apply Math_max_lower. Qed.

(** ** One tick, cell by cell *)

Lemma step_grid (r : rules) (g : grid) :
  (step r g).1 =
  let g' := diffuse r (transitions r (aggregate g)).1 in
  set_gen (st_gen g' + 1) (swap_buffers g').
Proof. unfold step. by destruct (transitions r (aggregate g)). Qed.


(** What one tick does to the cell [(x, y)] of a grid whose buffers have
    [N = W * H] entries: the three passes in terms of the stored values. *)
Lemma step_cell (r : rules) (g : grid) (x y : Z) :
  st_N g = st_W g * st_H g -> sized g ->
  0 <= x < st_W g -> 0 <= y < st_H g ->
  let i := idx g x y in
  let a := rd 0 (st_A g) i in
  let f := rd 0%Q (st_F g) i in
  let fs := stored_Fsum g x y in
  let nx := stored_A2 r a (stored_Nsum g x y) f fs in
  let booked := (transitions r (aggregate g)).1 in
  rd 0 (st_Nsum (aggregate g)) i = stored_Nsum g x y /\
  rd 0%Q (st_Fsum (aggregate g)) i = fs /\
  rd 0 (st_A2 booked) i = nx /\
  rd 0%Q (st_F booked) i = booked_F r a nx f /\
  rd 0 (st_A (step r g).1) i = nx /\
  rd 0%Q (st_F (step r g).1) i = diffused_F r (booked_F r a nx f) fs /\
  st_Fsum (step r g).1 = st_Fsum (aggregate g).
Proof.
  intros HN (HlA & HlF & HlA2 & HlFs & HlNs) Hx Hy i a f fs nx booked.
  pose proof (idx_in_range g x y HN Hx Hy) as Hi. fold i in Hi.
  destruct (aggregate_values g HN HlNs HlFs) with (x := x) (y := y)
    as [HNs HFs]; [lia.. |].
  fold i in HNs, HFs.
  destruct (aggregate_frame g) as (ns & fsum & Hagg & Hlns & Hlfs).
  assert (HA1 : st_A (aggregate g) = st_A g) by (by rewrite Hagg).
  assert (HF1 : st_F (aggregate g) = st_F g) by (by rewrite Hagg).
  assert (HA21 : st_A2 (aggregate g) = st_A2 g) by (by rewrite Hagg).
  assert (HN1 : st_N (aggregate g) = st_N g) by (by rewrite Hagg).
  destruct (transitions_values r (aggregate g)) with (i := i) as [Hnx Hbk];
    [by rewrite HA21, HN1 | by rewrite HF1, HN1 | by rewrite HN1 |].
  rewrite HA1, HF1, HNs, HFs in Hnx, Hbk. fold a f fs nx booked in Hnx, Hbk.
  destruct (transitions_frame r (aggregate g)) as (a2 & f2 & c & Htr & Hla2 & Hlf2 & _).
  assert (HFs2 : st_Fsum booked = st_Fsum (aggregate g))
    by (unfold booked; by rewrite Htr).
  assert (HN2 : st_N booked = st_N g) by (unfold booked; by rewrite Htr).
  assert (HlF2 : Z.of_nat (length (st_F booked)) = st_N booked).
  { rewrite HN2. unfold booked. rewrite Htr. cbn. rewrite Hlf2, HF1. done. }
  destruct (diffuse_frame r booked) as (f3 & Hdf & Hlf3).
  pose proof (diffuse_values r booked HlF2 i) as Hdv.
  rewrite HN2, Hbk, HFs2, HFs in Hdv. specialize (Hdv Hi).
  rewrite step_grid. fold booked. cbn zeta.
  cbn [st_A st_F st_Fsum set_gen swap_buffers set_A set_A2].
  do 4 (split; [done |]).
  split; [| split; [done |]].
  - by rewrite Hdf.
  - rewrite Hdf. cbn. done.
Qed.

(** ** The birth and survival rule *)

Lemma stored_A2_rule (r : rules) (a n : Z) (f fs : Q) :
  let E := (w0 r * f + w1 r * (fs * (1 / 8)))%Q in
  stored_A2 r a n f fs = 1 <->
  (a = 0 /\ n = 3 /\ (tau r <= E)%Q) \/
  (a = 1 /\ (n = 2 \/ n = 3) /\ (sigma r <= E)%Q).
Proof.
  intros E. unfold stored_A2. fold E. rewrite <- !Qle_bool_iff.
  destruct (Z.eqb_spec a 0), (Z.eqb_spec a 1), (Z.eqb_spec n 2),
    (Z.eqb_spec n 3), (Qle_bool (tau r) E), (Qle_bool (sigma r) E);
    cbn; split; intros; try done; try lia; intuition (lia || congruence).
Qed.

Lemma booked_F_cases (r : rules) (a nx : Z) (f : Q) :
  (a = 1 -> nx = 0 -> booked_F r a nx f = (f + alpha r)%Q) /\
  (a = 0 -> nx = 1 -> booked_F r a nx f = Math_max 0 (f - beta r)) /\
  (a = 1 -> nx = 1 -> booked_F r a nx f = Math_max 0 (f - kappa r)) /\
  (a = 0 -> nx = 0 -> booked_F r a nx f = f).
Proof. repeat split; intros -> ->; reflexivity. Qed.

(** The effective fertility does not depend on how the neighbour sum is
    represented. *)
Lemma effective_fertility_compat (r : rules) (f fs nfs : Q) :
  (fs == nfs)%Q ->
  (w0 r * f + w1 r * (fs * (1 / 8)) == w0 r * f + w1 r * (nfs / 8))%Q.
Proof. intros ->. field. Qed.

(** The liveness of a cell after one tick, in terms of the toroidal
    neighbourhood of the grid before the tick. *)
Lemma next_liveness (r : rules) (g : grid) (x y : Z) :
  well_formed g -> 0 <= x < st_W g -> 0 <= y < st_H g ->
  let i := idx g x y in
  let a := rd 0 (st_A g) i in
  let n := neighbour_alive_count g x y in
  let favg := (neighbour_fertility_sum g x y / 8)%Q in
  let E := (w0 r * rd 0%Q (st_F g) i + w1 r * favg)%Q in
  let nx := rd 0 (st_A (step r g).1) i in
  (nx = 1 <->
     (a = 0 /\ n = 3 /\ (tau r <= E)%Q) \/
     (a = 1 /\ (n = 2 \/ n = 3) /\ (sigma r <= E)%Q)) /\
  (nx <> 1 -> nx = 0).
Proof.
  intros (HW & HH & HN & Hsized & Hbin) Hx Hy i a n favg E nx.
  destruct (step_cell r g x y HN Hsized Hx Hy) as (_ & _ & _ & _ & Hnx & _ & _).
  fold i a in Hnx. fold nx in Hnx.
  rewrite (stored_Nsum_refines g x y Hbin Hx Hy) in Hnx. fold n in Hnx.
  pose proof (stored_A2_rule r a n (rd 0%Q (st_F g) i) (stored_Fsum g x y)) as Hrule.
  cbn zeta in Hrule. rewrite <- Hnx in Hrule.
  rewrite (effective_fertility_compat r _ _ _ (stored_Fsum_refines g x y Hx Hy))
    in Hrule.
  split; [exact Hrule |].
  destruct (stored_A2_binary r a n (rd 0%Q (st_F g) i) (stored_Fsum g x y))
    as [H0 | H1]; rewrite <- Hnx in *; [done | by intros []].
Qed.




(** ** Diffusion and decay after the bookkeeping *)



(** ** Wraparound *)

(** C3, for grids at least three cells wide and high.  On a well-formed
    grid with [W >= 3] and [H >= 3] whose only live cell is [(0, 0)], the
    count stored by the neighbour pass is 1 at the eight cells
    [(W-1, H-1)], [(W-1, 0)], [(0, H-1)], [(1, 0)], [(0, 1)], [(1, 1)],
    [(W-1, 1)], [(1, H-1)], which are pairwise distinct, and 0 at every
    other cell. *)
Theorem wraparound_from_three (g : grid) :
  well_formed g -> 3 <= st_W g -> 3 <= st_H g -> only_origin_alive g ->
  NoDup (origin_neighbours g) /\
  forall x y, 0 <= x < st_W g -> 0 <= y < st_H g ->
    rd 0 (st_Nsum (aggregate g)) (idx g x y) =
    if is_origin_neighbour g x y then 1 else 0.
Proof.
  intros (HW & HH & HN & (HlA & HlF & HlA2 & HlFs & HlNs) & Hbin) HW3 HH3 Hor.
  split.
  { unfold origin_neighbours. cbn zeta.
    repeat (apply NoDup_cons_2;
            [rewrite ?elem_of_cons, elem_of_nil; intros Hin;
             repeat (destruct Hin as [Hin | Hin]; [injection Hin; lia |]);
             done |]).
    apply NoDup_nil_2. }
  intros x y Hx Hy.
  destruct (aggregate_values g HN HlNs HlFs) with (x := x) (y := y)
    as [-> _]; [lia.. |].
  unfold only_origin_alive, idx in Hor.
  unfold stored_Nsum, over_neighbours, is_origin_neighbour, origin_neighbours.
  cbn [existsb fst snd].
  assert (Hyu : 0 <= (if y =? 0 then st_H g - 1 else y - 1) < st_H g)
    by (destruct (Z.eqb_spec y 0); lia).
  assert (Hyd : 0 <= (if y =? st_H g - 1 then 0 else y + 1) < st_H g)
    by (destruct (Z.eqb_spec y (st_H g - 1)); lia).
  assert (Hxl : 0 <= (if x =? 0 then st_W g - 1 else x - 1) < st_W g)
    by (destruct (Z.eqb_spec x 0); lia).
  assert (Hxr : 0 <= (if x =? st_W g - 1 then 0 else x + 1) < st_W g)
    by (destruct (Z.eqb_spec x (st_W g - 1)); lia).
  rewrite !Hor by done. clear Hyu Hyd Hxl Hxr Hor.
  assert (Hxc : x = 0 \/ x = 1 \/ x = st_W g - 1 \/ 2 <= x <= st_W g - 2) by lia.
  assert (Hyc : y = 0 \/ y = 1 \/ y = st_H g - 1 \/ 2 <= y <= st_H g - 2) by lia.
  destruct Hxc as [-> | [-> | [-> | Hxc]]];
    destruct Hyc as [-> | [-> | [-> | Hyc]]];
    settle_eqb; reflexivity.
Qed.

Lemma single_cell_3x3 :
  well_formed (single_cell_grid 3 3) /\ only_origin_alive (single_cell_grid 3 3).
Proof.
  split.
  - unfold well_formed, sized, binary. vm_compute.
    repeat split; try done.
    repeat (apply Forall_cons_2; [(by left) || (by right) |]). apply Forall_nil_2.
  - intros x y Hx Hy. change (st_W (single_cell_grid 3 3)) with 3 in Hx.
    change (st_H (single_cell_grid 3 3)) with 3 in Hy.
    assert (Hxc : x = 0 \/ x = 1 \/ x = 2) by lia.
    assert (Hyc : y = 0 \/ y = 1 \/ y = 2) by lia.
    destruct Hxc as [-> | [-> | ->]]; destruct Hyc as [-> | [-> | ->]];
      reflexivity.
Qed.

Lemma wraparound_from_three_witness :
  well_formed (single_cell_grid 3 3) /\
  only_origin_alive (single_cell_grid 3 3) /\
  rd 0 (st_Nsum (aggregate (single_cell_grid 3 3)))
    (idx (single_cell_grid 3 3) 2 2) = 1 /\
  rd 0 (st_Nsum (aggregate (single_cell_grid 3 3)))
    (idx (single_cell_grid 3 3) 0 0) = 0.
Proof.
  destruct single_cell_3x3 as [Hwf Hor].
  destruct (wraparound_from_three (single_cell_grid 3 3) Hwf) as [_ Hcount];
    [by vm_compute | by vm_compute | exact Hor |].
  split; [exact Hwf |]. split; [exact Hor |].
  split.
  - apply (Hcount 2 2); by vm_compute.
  - apply (Hcount 0 0); by vm_compute.
Defined.

(** C3 as stated, with [W >= 2] and [H >= 2], fails on the 2 by 2 grid:
    there the left and the right neighbour of [(1, 0)] are both [(0, 0)], and
    the stored count is 2. *)
Lemma wraparound_fails_at_two :
  ~ (forall g : grid,
       well_formed g -> 2 <= st_W g -> 2 <= st_H g -> only_origin_alive g ->
       forall x y, 0 <= x < st_W g -> 0 <= y < st_H g ->
         rd 0 (st_Nsum (aggregate g)) (idx g x y) =
         if is_origin_neighbour g x y then 1 else 0).
Proof.
  intros Hclaim.
  assert (Hwf : well_formed (single_cell_grid 2 2)).
  { unfold well_formed, sized, binary. vm_compute.
    repeat split; try done.
    repeat (apply Forall_cons_2; [(by left) || (by right) |]). apply Forall_nil_2. }
  assert (Hor : only_origin_alive (single_cell_grid 2 2)).
  { intros x y Hx Hy. change (st_W (single_cell_grid 2 2)) with 2 in Hx.
    change (st_H (single_cell_grid 2 2)) with 2 in Hy.
    assert (Hxc : x = 0 \/ x = 1) by lia.
    assert (Hyc : y = 0 \/ y = 1) by lia.
    destruct Hxc as [-> | ->]; destruct Hyc as [-> | ->]; reflexivity. }
  specialize (Hclaim (single_cell_grid 2 2) Hwf).
  specialize (Hclaim ltac:(by vm_compute) ltac:(by vm_compute) Hor 1 0).
  specialize (Hclaim ltac:(by vm_compute) ltac:(by vm_compute)).
  vm_compute in Hclaim. discriminate Hclaim.
Qed.

(** ** [renderFrame] *)

Lemma render_cell_stores `{Host} (g : grid) (i : Z) (out : list Z) :
  exists cr cg cb,
    render_cell g i out =
    wr (wr (wr (wr out (i * 4 + 0) cr) (i * 4 + 1) cg) (i * 4 + 2) cb)
       (i * 4 + 3) 255.
Proof.
  unfold render_cell. cbn zeta beta iota.
  destruct (rd 0 (st_A g) i =? 1); eexists _, _, _; reflexivity.
Qed.

(** The pixel loop reads [N], [A] and [F] only. *)
Lemma render_cell_inputs `{Host} (g g' : grid) (i : Z) (out : list Z) :
  st_A g = st_A g' -> st_F g = st_F g' -> render_cell g i out = render_cell g' i out.
Proof. intros HA HF. unfold render_cell. by rewrite HA, HF. Qed.

Lemma renderFrame_inputs `{Host} (g g' : grid) :
  st_N g = st_N g' -> st_A g = st_A g' -> st_F g = st_F g' ->
  renderFrame g = renderFrame g'.
Proof.
  intros HN HA HF. unfold renderFrame. rewrite HN.
  destruct (new_array 0 (st_N g' * 4)) as [e | out]; [done |].
  f_equal. generalize (upto (st_N g')). intros ks. revert out.
  induction ks as [| k ks IH]; intros out; cbn [fold_left]; [done |].
  rewrite (render_cell_inputs g g' k out HA HF). apply IH.
Qed.

Lemma renderFrame_throws `{Host} (g : grid) :
  st_N g < 0 -> renderFrame g = inl RangeError.
Proof.
  intros HN. unfold renderFrame. rewrite new_array_throws by lia. done.
Qed.

(** For [N >= 0] the frame has [4 * N] bytes, and byte [4 * i + 3] of every
    cell [i] is 255. *)
Lemma renderFrame_shape `{Host} (g : grid) :
  0 <= st_N g ->
  exists px,
    renderFrame g = inr px /\
    Z.of_nat (length px) = 4 * st_N g /\
    forall i, 0 <= i < st_N g -> rd 0 px (4 * i + 3) = 255.
Proof.
  intros HN. unfold renderFrame. rewrite new_array_ok by lia.
  eexists. split; [reflexivity |].
  pose (P (k : Z) (out : list Z) :=
    Z.of_nat (length out) = 4 * st_N g /\
    forall i, 0 <= i < k -> rd 0 out (4 * i + 3) = 255).
  assert (Hfinal : P (st_N g)
            (fold_left (fun out i => render_cell g i out) (upto (st_N g))
               (replicate (Z.to_nat (st_N g * 4)) 0))).
  { apply (for_loop_invariant P (fun i out => render_cell g i out)); [done | |].
    - split; [rewrite length_replicate; lia | intros; lia].
    - intros k out Hk [Hlen Hdone].
      destruct (render_cell_stores g k out) as (cr & cg & cb & ->).
      split; [by rewrite !length_wr |].
      intros i Hi. destruct (decide (i = k)) as [-> | Hne].
      + replace (4 * k + 3) with (k * 4 + 3) by lia.
        rewrite rd_wr_eq; [done |]. rewrite !length_wr. lia.
      + rewrite !rd_wr_ne by lia. apply Hdone. lia. }
  exact Hfinal.
Qed.

Lemma postFrame_posted `{Host} (c : Z) (src : FrameSource) (g : grid) (f : frame) :
  postFrame c src g = Posted f ->
  0 <= st_N g /\ renderFrame g = inr (buffer f) /\
  source f = src /\ width f = st_W g /\ height f = st_H g /\
  generation f = st_gen g /\ alive f = c.
Proof.
  unfold postFrame. intros Hpost.
  destruct (Z.le_gt_cases 0 (st_N g)) as [HN | HN].
  - destruct (renderFrame g) as [e | px]; [done |].
    injection Hpost as <-. done.
  - rewrite renderFrame_throws in Hpost by done. done.
Qed.

(** ** [ensureArrays] *)

(** The grid a successful [ensureArrays] builds, [f] being the initial
    fertility. *)
Lemma Rev1_ensureArrays_ok (w h : Z) (g : grid) :
  0 <= w * h ->
  Rev1.ensureArrays w h g =
  (let n := Z.to_nat (w * h) in
   mkGrid true w h (w * h) (replicate n 0) (replicate n 0%Q) (replicate n 0)
          0 (replicate n 0%Q) (replicate n 0), None).
Proof.
  intros Hn. unfold Rev1.ensureArrays. cbn. rewrite !new_array_ok by done. done.
Qed.

Lemma Rev1_ensureArrays_throws (w h : Z) (g : grid) :
  w * h < 0 ->
  Rev1.ensureArrays w h g = (set_N (w * h) (set_H h (set_W w g)), Some RangeError).
Proof.
  intros Hn. unfold Rev1.ensureArrays. cbn. rewrite !new_array_throws by done. done.
Qed.

Lemma Rev2_ensureArrays_ok (w h : Z) (s : Rev2.state) :
  0 <= w * h ->
  Rev2.ensureArrays w h s =
  (let n := Z.to_nat (w * h) in
   Rev2.mkState
     (mkGrid true w h (w * h) (replicate n 0) (replicate n (Rev2.f0 s))
             (replicate n 0) 0 (replicate n 0%Q) (replicate n 0))
     (Rev2.f0 s) (Rev2.tunables s), None).
Proof.
  intros Hn. unfold Rev2.ensureArrays. cbn. rewrite !new_array_ok by done.
  cbn. unfold fill. rewrite length_replicate. done.
Qed.

Lemma Rev2_ensureArrays_throws (w h : Z) (s : Rev2.state) :
  w * h < 0 ->
  Rev2.ensureArrays w h s =
  (Rev2.mkState (set_N (w * h) (set_H h (set_W w (Rev2.cells s))))
     (Rev2.f0 s) (Rev2.tunables s), Some RangeError).
Proof.
  intros Hn. unfold Rev2.ensureArrays. cbn. rewrite !new_array_throws by done. done.
Qed.

(** ** What every message preserves *)

Lemma binary_replicate (n : nat) : binary (replicate n 0).
Proof. apply Forall_replicate. by left. Qed.

Lemma fresh_grid_consistent (w h : Z) (f : list Q) (n : nat) :
  (0 <= w * h -> n = Z.to_nat (w * h)) -> length f = n ->
  consistent
    (mkGrid true w h (w * h) (replicate n 0) f (replicate n 0) 0
            (replicate n 0%Q) (replicate n 0)).
Proof.
  intros Hn Hf. unfold consistent, sized. cbn.
  rewrite !length_replicate, Hf.
  split; [done |]. split; [intros H0; rewrite (Hn H0); lia |].
  split; apply binary_replicate.
Qed.

(** One tick rewrites the liveness, the fertility and the scratch buffers
    in place and increments the generation. *)
Lemma step_frame (r : rules) (g : grid) :
  exists a2 f fs ns,
    (step r g).1 =
    mkGrid (initialized g) (st_W g) (st_H g) (st_N g) a2 f (st_A g)
           (st_gen g + 1) fs ns /\
    length a2 = length (st_A2 g) /\ length f = length (st_F g) /\
    length fs = length (st_Fsum g) /\ length ns = length (st_Nsum g) /\
    (binary (st_A2 g) -> binary a2).
Proof.
  rewrite step_grid. cbn zeta.
  destruct (aggregate_frame g) as (ns & fs & -> & Hns & Hfs).
  destruct (transitions_frame r (set_Fsum fs (set_Nsum ns g)))
    as (a2 & f & c & -> & Ha2 & Hf & Hbin).
  cbn [fst].
  destruct (diffuse_frame r (set_F f (set_A2 a2 (set_Fsum fs (set_Nsum ns g)))))
    as (f' & -> & Hf').
  exists a2, f', fs, ns. cbn in *. split; [done |].
  repeat split; try done. congruence.
Qed.

Lemma step_consistent (r : rules) (g : grid) :
  consistent g -> consistent (step r g).1.
Proof.
  intros (HN & Hsized & HbA & HbA2).
  destruct (step_frame r g) as (a2 & f & fs & ns & -> & Ha2 & Hf & Hfs & Hns & Hbin).
  unfold consistent, sized in *. cbn.
  split; [done |]. split; [| split; [by apply Hbin | done]].
  intros H0. destruct (Hsized H0) as (? & ? & ? & ? & ?).
  rewrite Ha2, Hf, Hfs, Hns. done.
Qed.

Lemma setCell_consistent (x y : Z) (v : bool) (g : grid) :
  consistent g -> consistent (setCell x y v g).
Proof.
  intros (HN & Hsized & HbA & HbA2). unfold setCell.
  destruct (_ && _); [| done].
  unfold consistent, sized in *. cbn. rewrite length_wr.
  split; [done |]. split; [done |]. split; [| done].
  apply binary_wr; [done |]. destruct v; auto.
Qed.

Lemma refill_consistent (g : grid) (v : Q) :
  consistent g ->
  consistent (set_gen 0 (set_F (fill (st_F g) v) (set_A (fill (st_A g) 0) g))).
Proof.
  intros (HN & Hsized & HbA & HbA2).
  unfold consistent, sized in *. cbn. rewrite !length_fill.
  split; [done |]. split; [done |]. split; [| done].
  apply binary_replicate.
Qed.

Lemma failed_init_consistent (w h : Z) (g : grid) :
  w * h < 0 -> consistent g -> consistent (set_N (w * h) (set_H h (set_W w g))).
Proof.
  intros Hn (_ & _ & HbA & HbA2). unfold consistent. cbn.
  split; [done |]. split; [lia | done].
Qed.

Lemma Rev1_onmessage_consistent `{Host} (msg : Rev1.InMsg) (g : grid) :
  consistent g -> consistent (Rev1.onmessage msg g).1.
Proof.
  intros Hg. destruct msg as [w h | | | x y v |]; cbn.
  - destruct (Z.le_gt_cases 0 (w * h)) as [Hn | Hn].
    + rewrite Rev1_ensureArrays_ok by done. cbn.
      apply fresh_grid_consistent; [done | apply length_replicate].
    + rewrite Rev1_ensureArrays_throws by lia. cbn.
      by apply failed_init_consistent; [lia |].
  - destruct (initialized g); cbn; [| done].
    pose proof (step_consistent Rev1.tunables g Hg) as Hs.
    by destruct (step Rev1.tunables g).
  - by destruct (initialized g).
  - destruct (initialized g); cbn; [| done]. by apply setCell_consistent.
  - destruct (initialized g); cbn; [| done]. by apply refill_consistent.
Qed.

Lemma Rev2_onmessage_consistent `{Host} (msg : Rev2.InMsg) (s : Rev2.state) :
  consistent (Rev2.cells s) -> consistent (Rev2.cells (Rev2.onmessage msg s).1).
Proof.
  intros Hg. destruct msg as [w h | | | | x y v | p]; cbn.
  - destruct (Z.le_gt_cases 0 (w * h)) as [Hn | Hn].
    + rewrite Rev2_ensureArrays_ok by done. cbn.
      apply fresh_grid_consistent; [done | apply length_replicate].
    + rewrite Rev2_ensureArrays_throws by lia. cbn.
      by apply failed_init_consistent; [lia |].
  - destruct (initialized (Rev2.cells s)); cbn; [| done].
    pose proof (step_consistent (Rev2.tunables s) (Rev2.cells s) Hg) as Hs.
    by destruct (step (Rev2.tunables s) (Rev2.cells s)).
  - by destruct (initialized (Rev2.cells s)).
  - destruct (initialized (Rev2.cells s)); cbn; [| done].
    by apply refill_consistent.
  - destruct (initialized (Rev2.cells s)); cbn; [| done].
    by apply setCell_consistent.
  - unfold Rev2.setParams. by destruct (Rev2.p_w0 p).
Qed.

Lemma grid0_consistent : consistent grid0.
Proof.
  unfold consistent, sized, binary. cbn. repeat split; try done; constructor.
Qed.

Lemma Rev1_reachable_consistent `{Host} (g : grid) :
  Rev1.reachable g -> consistent g.
Proof.
  intros [msgs <-]. unfold Rev1.run.
  apply (loop_preserves (fun s : grid * list reply => consistent s.1)
    (fun msg s => let '(g, out) := Rev1.onmessage msg s.1 in (g, s.2 ++ [out]))).
  - exact grid0_consistent.
  - intros msg [g outs] Hg. cbn [fst snd] in *.
    pose proof (Rev1_onmessage_consistent msg g Hg) as Hnext.
    by destruct (Rev1.onmessage msg g).
Qed.

Lemma Rev2_reachable_consistent `{Host} (s : Rev2.state) :
  Rev2.reachable s -> consistent (Rev2.cells s).
Proof.
  intros [msgs <-]. unfold Rev2.run.
  apply (loop_preserves
    (fun s : Rev2.state * list reply => consistent (Rev2.cells s.1))
    (fun msg s => let '(s', out) := Rev2.onmessage msg s.1 in (s', s.2 ++ [out]))).
  - exact grid0_consistent.
  - intros msg [s outs] Hs. cbn [fst snd] in *.
    pose proof (Rev2_onmessage_consistent msg s Hs) as Hnext.
    by destruct (Rev2.onmessage msg s).
Qed.

(** A grid that satisfies the invariant and has positive dimensions is
    well formed; so is, then, every reachable grid with positive
    dimensions. *)
Lemma consistent_well_formed (g : grid) :
  consistent g -> 0 < st_W g -> 0 < st_H g -> well_formed g.
Proof.
  intros (HN & Hsized & HbA & _) HW HH. unfold well_formed.
  do 3 (split; [done |]). split; [| done]. apply Hsized. rewrite HN. lia.
Qed.

Lemma Rev1_reachable_well_formed `{Host} (g : grid) :
  Rev1.reachable g -> 0 < st_W g -> 0 < st_H g -> well_formed g.
Proof. intros Hg. apply consistent_well_formed. by apply Rev1_reachable_consistent. Qed.

Lemma Rev2_reachable_well_formed `{Host} (s : Rev2.state) :
  Rev2.reachable s -> 0 < st_W (Rev2.cells s) -> 0 < st_H (Rev2.cells s) ->
  well_formed (Rev2.cells s).
Proof. intros Hs. apply consistent_well_formed. by apply Rev2_reachable_consistent. Qed.

(** ** The messages, case by case *)

Lemma Rev1_Step_ready `{Host} (g : grid) :
  initialized g = true ->
  Rev1.onmessage Rev1.Step g =
  ((step Rev1.tunables g).1,
   postFrame (step Rev1.tunables g).2 src_step (step Rev1.tunables g).1).
Proof.
  intros Hi. unfold Rev1.onmessage. rewrite Hi. cbn [negb].
  by destruct (step Rev1.tunables g).
Qed.

Lemma Rev2_Step_ready `{Host} (s : Rev2.state) :
  initialized (Rev2.cells s) = true ->
  Rev2.onmessage Rev2.Step s =
  (Rev2.with_cells s (step (Rev2.tunables s) (Rev2.cells s)).1,
   postFrame (step (Rev2.tunables s) (Rev2.cells s)).2 src_step
     (step (Rev2.tunables s) (Rev2.cells s)).1).
Proof.
  intros Hi. unfold Rev2.onmessage. rewrite Hi. cbn [negb].
  by destruct (step (Rev2.tunables s) (Rev2.cells s)).
Qed.

Lemma Rev1_Clear_ready `{Host} (g : grid) :
  initialized g = true ->
  Rev1.onmessage Rev1.Clear g =
  (let g' := set_gen 0 (set_F (fill (st_F g) 0%Q) (set_A (fill (st_A g) 0) g)) in
   (g', postFrame 0 src_clear g')).
Proof. intros Hi. unfold Rev1.onmessage. by rewrite Hi. Qed.

Lemma Rev2_Reset_ready `{Host} (s : Rev2.state) :
  initialized (Rev2.cells s) = true ->
  Rev2.onmessage Rev2.Reset s =
  (let g := Rev2.cells s in
   let g' := set_gen 0 (set_F (fill (st_F g) (Rev2.f0 s)) (set_A (fill (st_A g) 0) g)) in
   (Rev2.with_cells s g', postFrame 0 src_reset g')).
Proof. intros Hi. unfold Rev2.onmessage. by rewrite Hi. Qed.

(** Before the first successful [init], a message that the handler guards
    with [if (!initialized) break] does nothing; [setParams] has no guard. *)
Lemma onmessage_not_ready `{Host} :
  (forall g msg, initialized g = false ->
     match msg with
     | Rev1.Init _ _ => True
     | _ => Rev1.onmessage msg g = (g, NoReply)
     end) /\
  (forall s msg, initialized (Rev2.cells s) = false ->
     match msg with
     | Rev2.Init _ _ => True
     | Rev2.SetParams p => Rev2.onmessage msg s = (Rev2.setParams p s, NoReply)
     | _ => Rev2.onmessage msg s = (s, NoReply)
     end).
Proof.
  split.
  - intros g msg Hi. destruct msg; try done; unfold Rev1.onmessage; by rewrite Hi.
  - intros s msg Hi. destruct msg; try done; unfold Rev2.onmessage; by rewrite Hi.
Qed.

(** ** Fertility stays non-negative *)

Lemma step_fertility_nonneg (r : rules) (g : grid) :
  Z.of_nat (length (st_F g)) = st_N g ->
  Forall (fun v => (0 <= v)%Q) (st_F (step r g).1).
Proof.
  intros HlF. rewrite step_grid. cbn zeta. cbn [st_F set_gen swap_buffers set_A set_A2].
  destruct (aggregate_frame g) as (ns & fs & -> & _).
  destruct (transitions_frame r (set_Fsum fs (set_Nsum ns g)))
    as (a2 & f & c & -> & _ & Hf & _).
  cbn [fst]. cbn in Hf.
  set (booked := set_F f (set_A2 a2 (set_Fsum fs (set_Nsum ns g)))).
  assert (HlF' : Z.of_nat (length (st_F booked)) = st_N booked)
    by (cbn; by rewrite Hf).
  destruct (diffuse_frame r booked) as (f' & Hdf & Hf').
  apply (Forall_rd 0%Q). intros i Hi.
  rewrite (diffuse_values r booked HlF' i).
  - apply diffused_F_nonneg.
  - rewrite Hdf in Hi. cbn in Hi. rewrite Hf' in Hi. lia.
Qed.


Lemma blinker_reachable : @Rev2.reachable dyadic_host blinker_state.
Proof. eexists. unfold blinker_state. reflexivity. Defined.



(** ** [init] *)




(** ** Messages before the first [init] *)

(** C6, with [setParams] set apart.  While [initialized] is false, every
    message other than [init] and [setParams] leaves the whole worker state
    unchanged and posts nothing, in both revisions.  [setParams], in every
    state, posts nothing and leaves the grid and the generation unchanged,
    but stores the parameters it carries. *)
Theorem uninitialized_noop `{Host} :
  (forall g msg, initialized g = false ->
     (forall w h, msg <> Rev1.Init w h) ->
     Rev1.onmessage msg g = (g, NoReply)) /\
  (forall s msg, initialized (Rev2.cells s) = false ->
     (forall w h, msg <> Rev2.Init w h) -> (forall p, msg <> Rev2.SetParams p) ->
     Rev2.onmessage msg s = (s, NoReply)) /\
  (forall s p,
     Rev2.onmessage (Rev2.SetParams p) s = (Rev2.setParams p s, NoReply) /\
     Rev2.cells (Rev2.setParams p s) = Rev2.cells s).
Proof.
  destruct onmessage_not_ready as [Hnot1 Hnot2].
  split; [| split].
  - intros g msg Hi Hmsg. specialize (Hnot1 g msg Hi).
    destruct msg; try done. by destruct (Hmsg width0 height0).
  - intros s msg Hi Hmsg Hset. specialize (Hnot2 s msg Hi).
    destruct msg; try done.
    + by destruct (Hmsg width0 height0).
    + by destruct (Hset params).
  - intros s p. split; [done |].
    unfold Rev2.setParams. by destruct (Rev2.p_w0 p).
Qed.

Lemma uninitialized_noop_witness :
  initialized (Rev2.cells Rev2.state0) = false /\
  @Rev2.onmessage dyadic_host Rev2.Step Rev2.state0 = (Rev2.state0, NoReply) /\
  @Rev2.onmessage dyadic_host Rev2.Reset Rev2.state0 = (Rev2.state0, NoReply) /\
  @Rev1.onmessage dyadic_host Rev1.Clear grid0 = (grid0, NoReply).
Proof.
  destruct (@uninitialized_noop dyadic_host) as (H1 & H2 & _).
  split; [reflexivity |].
  split; [by apply H2 |]. split; [by apply H2 | by apply H1].
Defined.

(** C6 as stated fails for [setParams]: sent to the worker before any
    [init], it changes [f0]. *)
Lemma setParams_before_init :
  let p := Rev2.mkParams (Some 2%Q) None None None None None None None None in
  initialized (Rev2.cells Rev2.state0) = false /\
  Rev2.f0 (@Rev2.onmessage dyadic_host (Rev2.SetParams p) Rev2.state0).1 = 2%Q /\
  Rev2.f0 Rev2.state0 = 0.7%Q /\
  (@Rev2.onmessage dyadic_host (Rev2.SetParams p) Rev2.state0).1 <> Rev2.state0.
Proof.
  cbn zeta. repeat split. intros Heq.
  apply (f_equal Rev2.f0) in Heq. discriminate Heq.
Qed.

(** ** [clear] and [reset] *)

Lemma alive_sum_zeros (n : nat) : alive_sum (replicate n 0) = 0.
Proof. unfold alive_sum. induction n as [| n IH]; [done | exact IH]. Qed.



(** ** [setParams] *)




(** ** Rendering *)

(** C9. [render] changes nothing of the worker state, in either revision,
    and answering it again gives the same reply.  The pixels are a function
    of [N], the liveness and the fertility alone.  Whenever [N >= 0], which
    holds after every successful [init], the frame is produced; every frame
    has 4 bytes per cell, [4 * W * H] in all for a reachable state, and the
    fourth byte of every cell is 255. *)
Theorem render_pure `{Host} :
  (forall g, (Rev1.onmessage Rev1.Render g).1 = g /\
             Rev1.onmessage Rev1.Render (Rev1.onmessage Rev1.Render g).1 =
             Rev1.onmessage Rev1.Render g) /\
  (forall s, (Rev2.onmessage Rev2.Render s).1 = s /\
             Rev2.onmessage Rev2.Render (Rev2.onmessage Rev2.Render s).1 =
             Rev2.onmessage Rev2.Render s) /\
  (forall g g', st_N g = st_N g' -> st_A g = st_A g' -> st_F g = st_F g' ->
     renderFrame g = renderFrame g') /\
  (forall g, 0 <= st_N g ->
     exists px, renderFrame g = inr px /\
       Z.of_nat (length px) = 4 * st_N g /\
       forall i, 0 <= i < st_N g -> rd 0 px (4 * i + 3) = 255) /\
  (forall g, Rev1.reachable g -> st_N g = st_W g * st_H g) /\
  (forall s, Rev2.reachable s ->
     st_N (Rev2.cells s) = st_W (Rev2.cells s) * st_H (Rev2.cells s)) /\
  (forall g f, Rev1.reachable g -> (Rev1.onmessage Rev1.Render g).2 = Posted f ->
     Z.of_nat (length (buffer f)) = 4 * (st_W g * st_H g) /\
     forall i, 0 <= i < st_W g * st_H g -> rd 0 (buffer f) (4 * i + 3) = 255) /\
  (forall s f, Rev2.reachable s -> (Rev2.onmessage Rev2.Render s).2 = Posted f ->
     let g := Rev2.cells s in
     Z.of_nat (length (buffer f)) = 4 * (st_W g * st_H g) /\
     forall i, 0 <= i < st_W g * st_H g -> rd 0 (buffer f) (4 * i + 3) = 255).
Proof.
  assert (Hsame1 : forall g, (Rev1.onmessage Rev1.Render g).1 = g).
  { intros g. unfold Rev1.onmessage. by destruct (initialized g). }
  assert (Hsame2 : forall s, (Rev2.onmessage Rev2.Render s).1 = s).
  { intros s. unfold Rev2.onmessage. by destruct (initialized (Rev2.cells s)). }
  split; [intros g; split; [done | by rewrite Hsame1] |].
  split; [intros s; split; [done | by rewrite Hsame2] |].
  split; [exact renderFrame_inputs |].
  split; [exact renderFrame_shape |].
  split; [intros g Hg; by destruct (Rev1_reachable_consistent g Hg) |].
  split; [intros s Hs; by destruct (Rev2_reachable_consistent s Hs) |].
  split.
  { intros g f Hg Hpost.
    destruct (Rev1_reachable_consistent g Hg) as [HN _].
    unfold Rev1.onmessage in Hpost.
    destruct (initialized g); [| done]. cbn [negb snd] in Hpost.
    apply postFrame_posted in Hpost as (H0 & Hpx & _).
    destruct (renderFrame_shape g H0) as (px & Hpx' & Hlen & Hbytes).
    rewrite Hpx in Hpx'. injection Hpx' as ->.
    rewrite <- HN. done. }
  intros s f Hs Hpost g.
  destruct (Rev2_reachable_consistent s Hs) as [HN _]. fold g in HN.
  unfold Rev2.onmessage in Hpost.
  destruct (initialized (Rev2.cells s)); [| done]. cbn [negb snd] in Hpost.
  apply postFrame_posted in Hpost as (H0 & Hpx & _). fold g in H0, Hpx.
  destruct (renderFrame_shape g H0) as (px & Hpx' & Hlen & Hbytes).
  rewrite Hpx in Hpx'. injection Hpx' as ->.
  rewrite <- HN. done.
Qed.

Lemma render_pure_witness :
  let g := Rev2.cells blinker_state in
  @Rev2.reachable dyadic_host blinker_state /\
  st_N g = st_W g * st_H g /\ 0 <= st_N g /\
  exists px, @renderFrame dyadic_host g = inr px /\
    Z.of_nat (length px) = 4 * st_N g /\
    rd 0 px (4 * 5 + 3) = 255.
Proof.
  lazy zeta.
  destruct (@render_pure dyadic_host) as (_ & _ & _ & Hshape & _ & HN & _).
  assert (H0 : 0 <= st_N (Rev2.cells blinker_state))
    by (vm_compute; discriminate).
  split; [exact blinker_reachable |].
  split; [exact (HN blinker_state blinker_reachable) |].
  split; [exact H0 |].
  destruct (Hshape (Rev2.cells blinker_state) H0) as (px & Hpx & Hlen & Hbytes).
  exists px. split; [exact Hpx |]. split; [exact Hlen |].
  apply (Hbytes 5). vm_compute. split; [discriminate | reflexivity].
Defined.

(** ** Unvalidated parameters *)



(** * Further properties of the worker *)

(** ** The live count returned by [step] *)

Lemma alive_sum_snoc (a : list Z) (v : Z) : alive_sum (a ++ [v]) = alive_sum a + v.
Proof. unfold alive_sum. by rewrite fold_left_app. Qed.

Lemma take_wr_succ (a : list Z) (k v : Z) :
  0 <= k < Z.of_nat (length a) ->
  take (Z.to_nat (k + 1)) (wr a k v) = take (Z.to_nat k) a ++ [v].
Proof.
  intros Hk. unfold wr. destruct (Z.ltb_spec k 0); [lia |].
  replace (Z.to_nat (k + 1)) with (S (Z.to_nat k)) by lia.
  rewrite (take_S_r _ _ v) by (apply list_lookup_insert_eq; lia).
  rewrite take_insert_ge by lia. done.
Qed.

(** The count accumulated by the transition pass is the sum of the
    next-liveness buffer it leaves. *)
Lemma transitions_count (r : rules) (g0 : grid) :
  Z.of_nat (length (st_A2 g0)) = st_N g0 ->
  (transitions r g0).2 = alive_sum (st_A2 (transitions r g0).1).
Proof.
  intros HlA2.
  pose (P (k : Z) (s : grid * Z) :=
    length (st_A2 s.1) = length (st_A2 g0) /\
    s.2 = alive_sum (take (Z.to_nat k) (st_A2 s.1))).
  assert (Hfinal : P (st_N g0) (transitions r g0)).
  { unfold transitions.
    apply (for_loop_invariant P (fun i s => transition_cell r i s)); [lia | |].
    - split; [done | reflexivity].
    - intros k [g c] Hk [Hlen Hc]. cbn [fst snd] in *.
      rewrite transition_cell_stores. unfold P.
      cbn [fst snd st_A2 set_F set_A2]. rewrite length_wr.
      split; [done |].
      rewrite take_wr_succ by lia. rewrite alive_sum_snoc, <- Hc.
      match goal with |- context [stored_A2 ?r ?a ?n ?f ?fs] =>
        destruct (stored_A2_binary r a n f fs) as [-> | ->] end; cbn; lia. }
  destruct Hfinal as [Hlen ->]. f_equal. apply take_ge. lia.
Qed.

Lemma step_count (r : rules) (g : grid) :
  Z.of_nat (length (st_A2 g)) = st_N g ->
  (step r g).2 = alive_sum (st_A (step r g).1).
Proof.
  intros HlA2.
  destruct (aggregate_frame g) as (ns & fs & Hagg & _).
  assert (HlA2' : Z.of_nat (length (st_A2 (aggregate g))) = st_N (aggregate g))
    by (by rewrite Hagg).
  pose proof (transitions_count r (aggregate g) HlA2') as Hcount.
  rewrite step_grid. unfold step.
  destruct (transitions r (aggregate g)) as [g2 c]. cbn [fst snd] in *.
  destruct (diffuse_frame r g2) as (f' & -> & _). cbn. done.
Qed.

(** X1. Every frame the worker posts describes the state the message
    leaves: its live count is the sum of the liveness buffer, its generation
    and dimensions are the worker's, and its pixels are the rendering of that
    state.  In particular the count returned by [step] is the count that
    [render] computes afterwards. *)
Theorem frames_report_state `{Host} :
  (forall g msg f, Rev1.reachable g ->
     (Rev1.onmessage msg g).2 = Posted f ->
     let g' := (Rev1.onmessage msg g).1 in
     alive f = alive_sum (st_A g') /\ generation f = st_gen g' /\
     width f = st_W g' /\ height f = st_H g' /\
     renderFrame g' = inr (buffer f)) /\
  (forall s msg f, Rev2.reachable s ->
     (Rev2.onmessage msg s).2 = Posted f ->
     let g' := Rev2.cells (Rev2.onmessage msg s).1 in
     alive f = alive_sum (st_A g') /\ generation f = st_gen g' /\
     width f = st_W g' /\ height f = st_H g' /\
     renderFrame g' = inr (buffer f)).
Proof.
  assert (Hpost : forall c src g f, postFrame c src g = Posted f ->
            c = alive_sum (st_A g) ->
            alive f = alive_sum (st_A g) /\ generation f = st_gen g /\
            width f = st_W g /\ height f = st_H g /\
            renderFrame g = inr (buffer f)).
  { intros c src g f Hf Hc. apply postFrame_posted in Hf.
    destruct Hf as (_ & Hpx & _ & HW & HH & Hgen & Hal).
    rewrite Hal, HW, HH, Hgen, Hpx. done. }
  destruct onmessage_not_ready as [Hnot1 Hnot2].
  split.
  - intros g msg f Hreach Hf g'.
    pose proof (Rev1_reachable_consistent g Hreach) as (HN & Hsized & _).
    destruct msg as [w h | | | x y v |].
    + unfold g' in *. unfold Rev1.onmessage in *.
      destruct (Z.le_gt_cases 0 (w * h)) as [Hn | Hn].
      * rewrite Rev1_ensureArrays_ok in * by done. cbn [fst snd] in *.
        apply (Hpost _ _ _ _ Hf). cbn [st_A]. by rewrite alive_sum_zeros.
      * rewrite Rev1_ensureArrays_throws in Hf by done. done.
    + destruct (initialized g) eqn:Hi;
        [| unfold g' in *; by rewrite (Hnot1 g Rev1.Step Hi) in Hf].
      unfold g' in *. rewrite Rev1_Step_ready in * by done. cbn [fst snd] in *.
      apply (Hpost _ _ _ _ Hf). apply step_count.
      destruct (postFrame_posted _ _ _ _ Hf) as (H0 & _).
      destruct (step_frame Rev1.tunables g) as (? & ? & ? & ? & Heq & _).
      rewrite Heq in H0. cbn in H0. by destruct (Hsized H0) as (_ & _ & ? & _).
    + destruct (initialized g) eqn:Hi;
        [| unfold g' in *; by rewrite (Hnot1 g Rev1.Render Hi) in Hf].
      unfold g', Rev1.onmessage in *. rewrite Hi in *. cbn [negb fst snd] in *.
      by apply (Hpost _ _ _ _ Hf).
    + unfold Rev1.onmessage in Hf. by destruct (initialized g).
    + destruct (initialized g) eqn:Hi;
        [| unfold g' in *; by rewrite (Hnot1 g Rev1.Clear Hi) in Hf].
      unfold g' in *. rewrite Rev1_Clear_ready in * by done.
      cbn zeta in *. cbn [fst snd] in *.
      apply (Hpost _ _ _ _ Hf). cbn [st_A set_gen set_F set_A].
      unfold fill. by rewrite alive_sum_zeros.
  - intros s msg f Hreach Hf g'.
    pose proof (Rev2_reachable_consistent s Hreach) as (HN & Hsized & _).
    destruct msg as [w h | | | | x y v | p].
    + unfold g' in *. unfold Rev2.onmessage in *.
      destruct (Z.le_gt_cases 0 (w * h)) as [Hn | Hn].
      * rewrite Rev2_ensureArrays_ok in * by done.
        cbn [fst snd Rev2.cells] in *.
        apply (Hpost _ _ _ _ Hf). cbn [st_A]. by rewrite alive_sum_zeros.
      * rewrite Rev2_ensureArrays_throws in Hf by done. done.
    + destruct (initialized (Rev2.cells s)) eqn:Hi;
        [| unfold g' in *; by rewrite (Hnot2 s Rev2.Step Hi) in Hf].
      unfold g' in *. rewrite Rev2_Step_ready in * by done.
      cbn [fst snd Rev2.cells Rev2.with_cells] in *.
      apply (Hpost _ _ _ _ Hf). apply step_count.
      destruct (postFrame_posted _ _ _ _ Hf) as (H0 & _).
      destruct (step_frame (Rev2.tunables s) (Rev2.cells s))
        as (? & ? & ? & ? & Heq & _).
      rewrite Heq in H0. cbn in H0. by destruct (Hsized H0) as (_ & _ & ? & _).
    + destruct (initialized (Rev2.cells s)) eqn:Hi;
        [| unfold g' in *; by rewrite (Hnot2 s Rev2.Render Hi) in Hf].
      unfold g', Rev2.onmessage in *. rewrite Hi in *. cbn [negb fst snd] in *.
      by apply (Hpost _ _ _ _ Hf).
    + destruct (initialized (Rev2.cells s)) eqn:Hi;
        [| unfold g' in *; by rewrite (Hnot2 s Rev2.Reset Hi) in Hf].
      unfold g' in *. rewrite Rev2_Reset_ready in * by done.
      cbn zeta in *. cbn [fst snd Rev2.cells Rev2.with_cells] in *.
      apply (Hpost _ _ _ _ Hf). cbn [st_A set_gen set_F set_A].
      unfold fill. by rewrite alive_sum_zeros.
    + unfold Rev2.onmessage in Hf. by destruct (initialized (Rev2.cells s)).
    + done.
Qed.

Lemma frames_report_state_witness :
  @Rev2.reachable dyadic_host blinker_state /\
  exists f,
    (@Rev2.onmessage dyadic_host Rev2.Step blinker_state).2 = Posted f /\
    alive f =
    alive_sum
      (st_A (Rev2.cells (@Rev2.onmessage dyadic_host Rev2.Step blinker_state).1)) /\
    alive f = 3.
Proof.
  split; [exact blinker_reachable |].
  let r := eval vm_compute in
    (@Rev2.onmessage dyadic_host Rev2.Step blinker_state).2 in
  match r with
  | Posted ?f =>
      exists f;
      assert (Hf : (@Rev2.onmessage dyadic_host Rev2.Step blinker_state).2 = Posted f)
        by (vm_compute; reflexivity)
  end.
  split; [exact Hf |]. split; [| reflexivity].
  exact (proj1 (proj2 (@frames_report_state dyadic_host) blinker_state
                  Rev2.Step _ blinker_reachable Hf)).
Defined.

(** ** Ticks on a well-formed grid *)

Lemma step_well_formed (r : rules) (g : grid) :
  well_formed g -> well_formed (step r g).1.
Proof.
  intros (HW & HH & HN & Hsized & Hbin).
  pose proof Hsized as (HlA & HlF & HlA2 & HlFs & HlNs).
  assert (Hcells : forall i, 0 <= i < st_N g ->
            rd 0 (st_A (step r g).1) i = 0 \/ rd 0 (st_A (step r g).1) i = 1).
  { intros i Hi.
    destruct (idx_surjective g i HW HN Hi) as (Hx & Hy & Hidx).
    destruct (step_cell r g _ _ HN Hsized Hx Hy) as (_ & _ & _ & _ & Hnx & _).
    rewrite Hidx in Hnx. rewrite Hnx. apply stored_A2_binary. }
  destruct (step_frame r g) as (a2 & f & fs & ns & Heq & Ha2 & Hf & Hfs & Hns & _).
  rewrite Heq in *. cbn [st_A] in Hcells.
  unfold well_formed, sized. cbn.
  rewrite Ha2, Hf, Hfs, Hns. do 3 (split; [done |]). split; [done |].
  apply (Forall_rd 0). intros i Hi. apply Hcells. lia.
Qed.

Lemma steps_succ (r : rules) (n : nat) (g : grid) :
  steps r (S n) g = (step r (steps r n g)).1.
Proof. reflexivity. Qed.

Lemma steps_invariant (r : rules) (n : nat) (g : grid) :
  well_formed g ->
  well_formed (steps r n g) /\
  st_W (steps r n g) = st_W g /\ st_H (steps r n g) = st_H g /\
  st_N (steps r n g) = st_N g /\
  st_gen (steps r n g) = st_gen g + Z.of_nat n /\
  ((0 < n)%nat -> Forall (fun v => (0 <= v)%Q) (st_F (steps r n g))) /\
  st_A2 (steps r (S n) g) = st_A (steps r n g).
Proof.
  intros Hwf.
  assert (Hall : well_formed (steps r n g) /\
    st_W (steps r n g) = st_W g /\ st_H (steps r n g) = st_H g /\
    st_N (steps r n g) = st_N g /\
    st_gen (steps r n g) = st_gen g + Z.of_nat n /\
    ((0 < n)%nat -> Forall (fun v => (0 <= v)%Q) (st_F (steps r n g)))).
  { induction n as [| n (IHwf & IHW & IHH & IHN & IHgen & _)].
    - cbn. split; [exact Hwf |]. do 3 (split; [done |]).
      split; [lia |]. intros Hlt. lia.
    - rewrite steps_succ.
      destruct (step_frame r (steps r n g))
        as (a2 & f & fs & ns & Heq & _).
      split; [by apply step_well_formed |].
      rewrite Heq at 1 2 3 4. cbn [st_W st_H st_N st_gen].
      do 3 (split; [done |]). split; [lia |].
      intros _. apply step_fertility_nonneg.
      by destruct IHwf as (_ & _ & _ & (_ & ? & _) & _). }
  destruct Hall as (? & ? & ? & ? & ? & ?). do 6 (split; [done |]).
  rewrite steps_succ.
  destruct (step_frame r (steps r n g)) as (a2 & f & fs & ns & -> & _). done.
Qed.



(** ** Conway's rule when fertility does not gate *)

Lemma rd_Forall_default {T : Type} (P : T -> Prop) (zero : T) (a : list T) (i : Z) :
  P zero -> Forall P a -> P (rd zero a i).
Proof.
  intros Hz Ha. unfold rd. destruct (i <? 0); [done |].
  destruct (a !! Z.to_nat i) as [v |] eqn:Hv; [| done].
  exact (Forall_lookup_1 _ _ _ _ Ha Hv).
Qed.






(** ** Grids without life *)

Lemma alive_sum_all_zero (a : list Z) :
  Forall (fun v => v = 0) a -> alive_sum a = 0.
Proof.
  unfold alive_sum. generalize 0 at 2 3. intros c Ha. revert c.
  induction Ha as [| v a -> _ IH]; intros c; cbn; [done |].
  rewrite Z.add_0_r. apply IH.
Qed.

Lemma neighbour_alive_count_dead (g : grid) (x y : Z) :
  Forall (fun v => v = 0) (st_A g) -> neighbour_alive_count g x y = 0.
Proof.
  intros HA. unfold neighbour_alive_count.
  induction (torus_neighbours g x y) as [| c cs IH]; cbn; [done |].
  rewrite IH, (rd_Forall_default (fun v => v = 0) 0 (st_A g) _ eq_refl HA). done.
Qed.

(** A tick on a grid without live cells: nothing is born, the count is 0
    and the bookkeeping leaves the fertility alone. *)
Lemma dead_tick (r : rules) (g : grid) :
  well_formed g -> Forall (fun v => v = 0) (st_A g) ->
  Forall (fun v => v = 0) (st_A (step r g).1) /\
  (step r g).2 = 0 /\
  forall x y, 0 <= x < st_W g -> 0 <= y < st_H g ->
    rd 0%Q (st_F (transitions r (aggregate g)).1) (idx g x y) =
    rd 0%Q (st_F g) (idx g x y).
Proof.
  intros Hwf HA.
  pose proof Hwf as (HW & HH & HN & Hsized & Hbin).
  pose proof Hsized as (HlA & HlF & HlA2 & HlFs & HlNs).
  assert (Hcell : forall x y, 0 <= x < st_W g -> 0 <= y < st_H g ->
            rd 0 (st_A (step r g).1) (idx g x y) = 0).
  { intros x y Hx Hy.
    destruct (next_liveness r g x y Hwf Hx Hy) as [Hrule Hzero].
    cbn zeta in Hrule, Hzero. apply Hzero. rewrite Hrule.
    rewrite (neighbour_alive_count_dead g x y HA).
    rewrite (rd_Forall_default (fun v => v = 0) 0 (st_A g) _ eq_refl HA).
    intros [(_ & ? & _) | (? & _)]; lia. }
  assert (Hdead : Forall (fun v => v = 0) (st_A (step r g).1)).
  { apply (Forall_rd 0). intros i Hi.
    destruct (step_frame r g) as (a2 & f & fs & ns & Heq & Ha2 & _).
    assert (Hi' : 0 <= i < st_N g) by (rewrite Heq in Hi; cbn in Hi; lia).
    destruct (idx_surjective g i HW HN Hi') as (Hx & Hy & Hidx).
    rewrite <- Hidx. by apply Hcell. }
  split; [exact Hdead |].
  split; [rewrite step_count by done; by apply alive_sum_all_zero |].
  intros x y Hx Hy.
  destruct (step_cell r g x y HN Hsized Hx Hy) as (_ & _ & _ & Hbk & Hnx & _).
  rewrite Hbk. rewrite <- Hnx, (Hcell x y Hx Hy).
  apply booked_F_cases; [| done].
  by apply (rd_Forall_default (fun v => v = 0) 0 (st_A g) _ eq_refl HA).
Qed.

(** X4. A grid without live cells stays without live cells: after any
    number of ticks every cell is dead, and each of these ticks returns the
    count 0 and books no soil. *)
Theorem dead_grid_stays_dead (r : rules) (n : nat) (g : grid) :
  well_formed g -> Forall (fun v => v = 0) (st_A g) ->
  Forall (fun v => v = 0) (st_A (steps r n g)) /\
  (step r (steps r n g)).2 = 0 /\
  forall x y, 0 <= x < st_W g -> 0 <= y < st_H g ->
    rd 0%Q (st_F (transitions r (aggregate (steps r n g))).1) (idx g x y) =
    rd 0%Q (st_F (steps r n g)) (idx g x y).
Proof.
  intros Hwf HA.
  assert (Hn : Forall (fun v => v = 0) (st_A (steps r n g))).
  { induction n as [| n IH]; [exact HA |].
    rewrite steps_succ.
    destruct (steps_invariant r n g Hwf) as (Hwfn & _).
    by destruct (dead_tick r (steps r n g) Hwfn IH). }
  destruct (steps_invariant r n g Hwf) as (Hwfn & HWn & HHn & _).
  destruct (dead_tick r (steps r n g) Hwfn Hn) as (_ & Hc & Hbk).
  split; [exact Hn |]. split; [exact Hc |].
  intros x y Hx Hy.
  assert (Hidx : idx (steps r n g) x y = idx g x y)
    by (unfold idx; by rewrite HWn).
  rewrite <- Hidx. apply Hbk; [by rewrite HWn | by rewrite HHn].
Qed.

Lemma fresh_state_facts :
  well_formed (Rev2.cells fresh_state) /\
  st_A (Rev2.cells fresh_state) = replicate 16 0 /\
  st_F (Rev2.cells fresh_state) = replicate 16 0.7%Q.
Proof.
  split; [| split; vm_compute; reflexivity].
  unfold well_formed, sized, binary. vm_compute.
  repeat split; try done.
  repeat (apply Forall_cons_2; [by left |]). apply Forall_nil_2.
Qed.

Lemma dead_grid_stays_dead_witness :
  let g := Rev2.cells fresh_state in
  well_formed g /\ Forall (fun v => v = 0) (st_A g) /\
  Forall (fun v => v = 0) (st_A (steps default_rules 3 g)) /\
  (step default_rules (steps default_rules 3 g)).2 = 0.
Proof.
  lazy zeta.
  destruct fresh_state_facts as (Hwf & HA & _).
  assert (Hdead : Forall (fun v => v = 0) (st_A (Rev2.cells fresh_state)))
    by (rewrite HA; by apply Forall_replicate).
  destruct (dead_grid_stays_dead default_rules 3 (Rev2.cells fresh_state)
              Hwf Hdead) as (H3 & Hc & _).
  split; [exact Hwf |]. split; [exact Hdead |]. split; [exact H3 | exact Hc].
Defined.

(** ** Uniform soil without life *)






(** ** Soil without fertility *)

Lemma neighbour_fertility_sum_barren (g : grid) (x y : Z) :
  Forall (fun v => (v == 0)%Q) (st_F g) ->
  (neighbour_fertility_sum g x y == 0)%Q.
Proof.
  intros HF. unfold neighbour_fertility_sum.
  induction (torus_neighbours g x y) as [| c cs IH]; cbn; [done |].
  rewrite IH.
  rewrite (rd_Forall_default (fun v => (v == 0)%Q) 0%Q (st_F g) _
             (Qeq_refl 0) HF).
  ring.
Qed.

(** With positive thresholds nothing lives through a tick on soil without
    fertility. *)
Lemma barren_tick (r : rules) (g : grid) :
  well_formed g -> Forall (fun v => (v == 0)%Q) (st_F g) ->
  (0 < tau r)%Q -> (0 < sigma r)%Q ->
  Forall (fun v => v = 0) (st_A (step r g).1) /\ (step r g).2 = 0.
Proof.
  intros Hwf HF Htau Hsigma.
  pose proof Hwf as (HW & HH & HN & Hsized & Hbin).
  pose proof Hsized as (HlA & HlF & HlA2 & HlFs & HlNs).
  assert (Hdead : Forall (fun v => v = 0) (st_A (step r g).1)).
  { apply (Forall_rd 0). intros i Hi.
    destruct (step_frame r g) as (a2 & f & fs & ns & Heq & Ha2 & _).
    assert (Hi' : 0 <= i < st_N g)
      by (rewrite Heq in Hi; cbn in Hi; lia).
    destruct (idx_surjective g i HW HN Hi') as (Hx & Hy & Hidx).
    destruct (next_liveness r g _ _ Hwf Hx Hy) as [Hrule Hzero].
    cbn zeta in Hrule, Hzero. rewrite Hidx in Hrule, Hzero.
    apply Hzero. rewrite Hrule.
    assert (HE : (w0 r * rd 0 (st_F g) i +
                  w1 r * (neighbour_fertility_sum g (i mod st_W g) (i / st_W g) / 8)
                  == 0)%Q).
    { rewrite neighbour_fertility_sum_barren by done.
      rewrite (rd_Forall_default (fun v => (v == 0)%Q) 0%Q (st_F g) _
                 (Qeq_refl 0) HF).
      field. }
    rewrite HE. intros [(_ & _ & Hle) | (_ & _ & Hle)]; lra. }
  split; [exact Hdead |].
  rewrite step_count by done. by apply alive_sum_all_zero.
Qed.

Lemma setCell_frame (x y : Z) (v : bool) (g : grid) :
  exists a, setCell x y v g = set_A a g /\ length a = length (st_A g) /\
            (binary (st_A g) -> binary a).
Proof.
  unfold setCell. destruct (_ && _).
  - eexists (wr _ _ _). split; [reflexivity |]. rewrite length_wr.
    split; [done |]. intros Hb. apply binary_wr; [done |]. destruct v; auto.
  - exists (st_A g). by destruct g.
Qed.

(** X6. In the first revision [init] leaves the fertility at zero, and
    its thresholds are positive: whatever is drawn after a successful [init]
    of positive dimensions, the first tick leaves no cell alive and posts a
    frame that counts 0 live cells. *)
Theorem first_revision_first_tick `{Host} (g0 : grid) (w h : Z)
    (edits : list (Z * Z * bool)) :
  0 < w -> 0 < h ->
  let drawn :=
    fold_left
      (fun g e => (Rev1.onmessage (Rev1.SetCell e.1.1 e.1.2 e.2) g).1)
      edits (Rev1.onmessage (Rev1.Init w h) g0).1 in
  let res := Rev1.onmessage Rev1.Step drawn in
  Forall (fun v => v = 0%Q) (st_F drawn) /\
  Forall (fun v => v = 0) (st_A res.1) /\
  exists f, res.2 = Posted f /\ alive f = 0 /\ generation f = 1.
Proof.
  intros Hw Hh drawn res.
  assert (Hdrawn : well_formed drawn /\ initialized drawn = true /\
                   st_gen drawn = 0 /\
                   Forall (fun v => v = 0%Q) (st_F drawn)).
  { unfold drawn.
    apply (loop_preserves
      (fun g => well_formed g /\ initialized g = true /\ st_gen g = 0 /\
                Forall (fun v => v = 0%Q) (st_F g))
      (fun e g => (Rev1.onmessage (Rev1.SetCell e.1.1 e.1.2 e.2) g).1)).
    - unfold Rev1.onmessage. rewrite Rev1_ensureArrays_ok by nia. cbn [fst].
      split; [| split; [done | split; [done | by apply Forall_replicate]]].
      apply consistent_well_formed; [| done..].
      apply fresh_grid_consistent; [done | apply length_replicate].
    - intros e g ((HW & HH & HN & Hsized & Hbin) & Hi & Hgen & HF).
      unfold Rev1.onmessage. rewrite Hi. cbn [negb fst].
      destruct (setCell_frame e.1.1 e.1.2 e.2 g) as (a & -> & Hlen & Hb).
      unfold well_formed, sized in *. cbn. rewrite Hlen.
      repeat split; try done; try tauto; by apply Hb. }
  destruct Hdrawn as (Hwf & Hi & Hgen & HF).
  split; [exact HF |].
  assert (HF' : Forall (fun v => (v == 0)%Q) (st_F drawn))
    by (eapply Forall_impl; [exact HF |]; by intros v ->).
  destruct (barren_tick Rev1.tunables drawn Hwf HF') as [Hdead Hcount];
    [reflexivity.. |].
  unfold res. rewrite Rev1_Step_ready by done. cbn [fst snd].
  split; [exact Hdead |].
  destruct (step_frame Rev1.tunables drawn) as (a2 & f & fs & ns & Heq & _).
  assert (H0 : 0 <= st_N (step Rev1.tunables drawn).1).
  { rewrite Heq. cbn. destruct Hwf as (? & ? & -> & _). nia. }
  destruct (renderFrame_shape _ H0) as (px & Hpx & _).
  unfold postFrame. rewrite Hpx. eexists. split; [reflexivity |].
  cbn [alive generation]. split; [exact Hcount |].
  rewrite Heq. cbn. lia.
Qed.

Lemma first_revision_first_tick_witness :
  0 < 3 /\
  let drawn :=
    fold_left
      (fun g e => (@Rev1.onmessage dyadic_host (Rev1.SetCell e.1.1 e.1.2 e.2) g).1)
      [(0, 0, true); (1, 0, true); (2, 0, true)]
      (@Rev1.onmessage dyadic_host (Rev1.Init 3 3) grid0).1 in
  let res := @Rev1.onmessage dyadic_host Rev1.Step drawn in
  Forall (fun v => v = 0%Q) (st_F drawn) /\
  Forall (fun v => v = 0) (st_A res.1) /\
  exists f, res.2 = Posted f /\ alive f = 0 /\ generation f = 1.
Proof.
  split; [lia |].
  exact (@first_revision_first_tick dyadic_host grid0 3 3
           [(0, 0, true); (1, 0, true); (2, 0, true)]
           ltac:(lia) ltac:(lia)).
Defined.

(** ** [setCell] *)

(** X7. In an initialized grid whose liveness buffer has [W * H] entries,
    [setCell] with coordinates on the grid writes [v] into that one cell and
    changes nothing else; with coordinates off the grid it changes nothing at
    all.  Either way nothing is posted. *)
Theorem setCell_one_cell `{Host} (s : Rev2.state) (x y : Z) (v : bool) :
  initialized (Rev2.cells s) = true ->
  st_N (Rev2.cells s) = st_W (Rev2.cells s) * st_H (Rev2.cells s) ->
  Z.of_nat (length (st_A (Rev2.cells s))) = st_N (Rev2.cells s) ->
  let g := Rev2.cells s in
  let res := Rev2.onmessage (Rev2.SetCell x y v) s in
  let g' := Rev2.cells res.1 in
  res.2 = NoReply /\
  res.1 = Rev2.with_cells s (set_A (st_A g') g) /\
  length (st_A g') = length (st_A g) /\
  ((0 <= x < st_W g /\ 0 <= y < st_H g) ->
     rd 0 (st_A g') (idx g x y) = Z.b2z v /\
     forall x' y', 0 <= x' < st_W g -> 0 <= y' < st_H g ->
       (x', y') <> (x, y) ->
       rd 0 (st_A g') (idx g x' y') = rd 0 (st_A g) (idx g x' y')) /\
  (~ (0 <= x < st_W g /\ 0 <= y < st_H g) -> res.1 = s).
Proof.
  intros Hi HN HlA. cbn zeta.
  unfold Rev2.onmessage. rewrite Hi. cbn [negb fst snd].
  cbn [Rev2.cells Rev2.with_cells]. set (g := Rev2.cells s) in *.
  unfold setCell.
  destruct (Z.leb_spec 0 x), (Z.leb_spec 0 y), (Z.ltb_spec x (st_W g)),
    (Z.ltb_spec y (st_H g)); cbn [andb];
    try (split; [done |]; split; [by destruct s as [[]] |]; split; [done |];
         split; [intros; lia | intros _; by destruct s as [[]]]).
  cbn [st_A set_A]. rewrite length_wr.
  do 3 (split; [done |]). split; [| intros Hout; lia].
  intros _.
  pose proof (idx_in_range g x y HN ltac:(lia) ltac:(lia)) as Hin.
  split; [apply rd_wr_eq; lia |].
  intros x' y' Hx' Hy' Hne. apply rd_wr_ne.
  intros Heq. apply idx_injective in Heq; [| lia..].
  destruct Heq as [-> ->]. done.
Qed.

Lemma setCell_one_cell_witness :
  let g := Rev2.cells blinker_state in
  let res := @Rev2.onmessage dyadic_host (Rev2.SetCell 3 3 true) blinker_state in
  initialized g = true /\ 0 <= 3 < st_W g /\ 0 <= 3 < st_H g /\
  rd 0 (st_A g) (idx g 3 3) = 0 /\
  rd 0 (st_A (Rev2.cells res.1)) (idx g 3 3) = 1 /\
  rd 0 (st_A (Rev2.cells res.1)) (idx g 1 1) = rd 0 (st_A g) (idx g 1 1).
Proof.
  lazy zeta.
  assert (Hi : initialized (Rev2.cells blinker_state) = true)
    by (vm_compute; reflexivity).
  assert (Hx : 0 <= 3 < st_W (Rev2.cells blinker_state))
    by (vm_compute; split; [discriminate | reflexivity]).
  assert (Hy : 0 <= 3 < st_H (Rev2.cells blinker_state))
    by (vm_compute; split; [discriminate | reflexivity]).
  assert (Hx1 : 0 <= 1 < st_W (Rev2.cells blinker_state))
    by (vm_compute; split; [discriminate | reflexivity]).
  assert (Hy1 : 0 <= 1 < st_H (Rev2.cells blinker_state))
    by (vm_compute; split; [discriminate | reflexivity]).
  assert (Hne : (1, 1) <> (3, 3)) by discriminate.
  pose proof (@setCell_one_cell dyadic_host blinker_state 3 3 true Hi
                ltac:(vm_compute; reflexivity) ltac:(vm_compute; reflexivity))
    as Hset.
  lazy zeta in Hset.
  destruct Hset as (_ & _ & _ & Hin & _).
  destruct (Hin (conj Hx Hy)) as [Hw Hrest].
  split; [exact Hi |]. split; [exact Hx |]. split; [exact Hy |].
  split; [vm_compute; reflexivity |]. split; [exact Hw |].
  exact (Hrest 1 1 Hx1 Hy1 Hne).
Defined.

(** ** The colours of a frame *)

Lemma rd_quad (out : list Z) (j r g b a : Z) :
  0 <= j -> j + 3 < Z.of_nat (length out) ->
  let out' := wr (wr (wr (wr out (j + 0) r) (j + 1) g) (j + 2) b) (j + 3) a in
  rd 0 out' j = r /\ rd 0 out' (j + 1) = g /\ rd 0 out' (j + 2) = b /\
  rd 0 out' (j + 3) = a /\
  forall m, m < j \/ j + 3 < m -> rd 0 out' m = rd 0 out m.
Proof.
  intros Hj Hlen out'. unfold out'.
  replace j with (j + 0) at 5 by lia.
  repeat split.
  - rewrite !rd_wr_ne by lia. apply rd_wr_eq. lia.
  - rewrite !rd_wr_ne by lia. apply rd_wr_eq. rewrite !length_wr. lia.
  - rewrite !rd_wr_ne by lia. apply rd_wr_eq. rewrite !length_wr. lia.
  - apply rd_wr_eq. rewrite !length_wr. lia.
  - intros m Hm. by rewrite !rd_wr_ne by lia.
Qed.

(** The colours [renderFrame] gives a cell, by cases of the cell's state. *)
Lemma render_cell_colours `{Host} (g : grid) (i : Z) (out : list Z) :
  exists cr cg cb,
    render_cell g i out =
    wr (wr (wr (wr out (i * 4 + 0) cr) (i * 4 + 1) cg) (i * 4 + 2) cb)
       (i * 4 + 3) 255 /\
    (rd 0 (st_A g) i = 1 -> (cr, cg, cb) = (230, 255, 230)) /\
    (rd 0 (st_A g) i <> 1 -> (rd 0 (st_F g) i < 0)%Q -> (cr, cg, cb) = (0, 0, 0)) /\
    (rd 0 (st_A g) i <> 1 -> (0 <= rd 0 (st_F g) i)%Q -> cr = 30).
Proof.
  unfold render_cell. cbn zeta beta iota.
  destruct (Z.eqb_spec (rd 0 (st_A g) i) 1) as [Ha | Ha].
  - eexists _, _, _. split; [reflexivity |]. repeat split; try done.
  - eexists _, _, _. split; [reflexivity |].
    split; [done |]. split.
    + intros _ Hneg.
      assert (Ht : Math_min (rd 0%Q (st_F g) i / F_VIS_CAP)%Q 1 =
                   (rd 0 (st_F g) i / F_VIS_CAP)%Q).
      { destruct (Math_min_cases (rd 0%Q (st_F g) i / F_VIS_CAP)%Q 1)
          as [[_ ->] | [Hlt _]]; [done |].
        exfalso. unfold F_VIS_CAP in Hlt.
        assert (rd 0 (st_F g) i / 1.5 <= 0)%Q
          by (apply Qle_shift_div_r; [done | lra]).
        lra. }
      rewrite Ht. unfold Math_sqrt.
      destruct (Qle_bool 0 (rd 0%Q (st_F g) i / F_VIS_CAP)%Q) eqn:Hle; [| done].
      exfalso. apply Qle_bool_iff in Hle. unfold F_VIS_CAP in Hle.
      assert (rd 0 (st_F g) i / 1.5 < 0)%Q
        by (apply Qlt_shift_div_r; [done | lra]).
      lra.
    + intros _ Hpos. unfold Math_sqrt.
      destruct (Qle_bool 0 (Math_min (rd 0%Q (st_F g) i / F_VIS_CAP)%Q 1)) eqn:Hle.
      * cbn [num_scale Math_round num_offset to_uint8_clamp].
        match goal with |- context [Qfloor ?q] =>
          assert (Hq : (q == 1 # 2)%Q) by ring
        end.
        rewrite (Qfloor_comp _ _ Hq). reflexivity.
      * exfalso.
        assert (Hnn : (0 <= Math_min (rd 0%Q (st_F g) i / F_VIS_CAP)%Q 1)%Q).
        { destruct (Math_min_cases (rd 0%Q (st_F g) i / F_VIS_CAP)%Q 1)
            as [[_ ->] | [_ ->]]; [| done].
          unfold F_VIS_CAP. apply Qle_shift_div_l; [done | lra]. }
        apply Qle_bool_iff in Hnn. congruence.
Qed.

(** X8. The colours of a rendered frame, whatever [Math.sqrt] is.  A live
    cell is (230, 255, 230, 255) whatever its fertility.  A dead cell with
    negative fertility is (0, 0, 0, 255): the square root is NaN and the
    clamped array stores 0.  A dead cell with fertility at least 0 has red
    30 and alpha 255. *)
Theorem frame_colours `{Host} (g : grid) (px : list Z) (i : Z) :
  renderFrame g = inr px -> 0 <= i < st_N g ->
  (rd 0 (st_A g) i = 1 -> pixel px i = (230, 255, 230, 255)) /\
  (rd 0 (st_A g) i <> 1 -> (rd 0 (st_F g) i < 0)%Q ->
     pixel px i = (0, 0, 0, 255)) /\
  (rd 0 (st_A g) i <> 1 -> (0 <= rd 0 (st_F g) i)%Q ->
     exists cg cb, pixel px i = (30, cg, cb, 255)).
Proof.
  intros Hpx Hi.
  pose (Q (j : Z) (p : Z * Z * Z * Z) :=
    (rd 0 (st_A g) j = 1 -> p = (230, 255, 230, 255)) /\
    (rd 0 (st_A g) j <> 1 -> (rd 0 (st_F g) j < 0)%Q -> p = (0, 0, 0, 255)) /\
    (rd 0 (st_A g) j <> 1 -> (0 <= rd 0 (st_F g) j)%Q ->
       exists cg cb, p = (30, cg, cb, 255))).
  pose (P (k : Z) (out : list Z) :=
    Z.of_nat (length out) = 4 * st_N g /\
    forall j, 0 <= j < k -> Q j (pixel out j)).
  assert (HN : 0 <= st_N g) by lia.
  unfold renderFrame in Hpx. rewrite new_array_ok in Hpx by lia.
  injection Hpx as <-.
  assert (Hfinal : P (st_N g)
            (fold_left (fun out i => render_cell g i out) (upto (st_N g))
               (replicate (Z.to_nat (st_N g * 4)) 0))).
  { apply (for_loop_invariant P (fun i out => render_cell g i out)); [done | |].
    - split; [rewrite length_replicate; lia | intros; lia].
    - intros k out Hk [Hlen Hdone].
      destruct (render_cell_colours g k out)
        as (cr & cg & cb & -> & Hlive & Hneg & Hpos).
      destruct (rd_quad out (k * 4) cr cg cb 255 ltac:(lia) ltac:(lia))
        as (H0 & H1 & H2 & H3 & Hother).
      cbn zeta in H0, H1, H2, H3, Hother.
      split; [by rewrite !length_wr |].
      intros j Hj. destruct (decide (j = k)) as [-> | Hne].
      + unfold pixel. replace (4 * k) with (k * 4) by lia.
        rewrite H0, H1, H2, H3. unfold Q. split; [| split].
        * intros Ha. by injection (Hlive Ha) as -> -> ->.
        * intros Ha Hf. by injection (Hneg Ha Hf) as -> -> ->.
        * intros Ha Hf. rewrite (Hpos Ha Hf). by eexists _, _.
      + unfold pixel. rewrite !Hother by lia. apply Hdone. lia. }
  destruct Hfinal as [_ Hall]. exact (Hall i Hi).
Qed.

Lemma frame_colours_witness :
  let g := Rev2.cells blinker_state in
  exists px,
    @renderFrame dyadic_host g = inr px /\
    0 <= 5 < st_N g /\ rd 0 (st_A g) 5 = 1 /\
    pixel px 5 = (230, 255, 230, 255).
Proof.
  lazy zeta.
  let r := eval vm_compute in (@renderFrame dyadic_host (Rev2.cells blinker_state)) in
  match r with
  | inr ?px =>
      exists px;
      assert (Hpx : @renderFrame dyadic_host (Rev2.cells blinker_state) = inr px)
        by (vm_compute; reflexivity)
  end.
  assert (Hi : 0 <= 5 < st_N (Rev2.cells blinker_state))
    by (vm_compute; split; [discriminate | reflexivity]).
  assert (Ha : rd 0 (st_A (Rev2.cells blinker_state)) 5 = 1)
    by (vm_compute; reflexivity).
  split; [exact Hpx |]. split; [exact Hi |]. split; [exact Ha |].
  exact (proj1 (@frame_colours dyadic_host _ _ 5 Hpx Hi) Ha).
Defined.

(** ** The neighbour pass, as a whole *)



(** ** What holds in every reachable state *)






(** * Properties of the page *)

(** ** Parameters sent to the worker *)

Lemma clamp_unit_idem (v : Q) :
  Math_max 0 (Math_min 1 (App.clamp v 0 1)) = App.clamp v 0 1.
Proof.
  unfold App.clamp, Math_max, Math_min.
  destruct (Qle_bool 1 v) eqn:E1.
  - reflexivity.
  - destruct (Qle_bool 0 v) eqn:E0.
    + by rewrite E1, E0.
    + reflexivity.
Qed.

Lemma clamp_bounds (v lo hi : Q) :
  (lo <= hi)%Q -> (lo <= App.clamp v lo hi)%Q /\ (App.clamp v lo hi <= hi)%Q.
Proof.
  intros Hlh. unfold App.clamp.
  destruct (Math_min_cases hi v) as [[? ->] | [? ->]];
    [destruct (Math_max_cases lo hi) as [[? ->] | [? ->]]
    | destruct (Math_max_cases lo v) as [[? ->] | [? ->]]];
    split; lra.
Qed.

Lemma clamp_inside (v lo hi : Q) :
  (lo <= v)%Q -> (v <= hi)%Q -> (App.clamp v lo hi == v)%Q.
Proof.
  intros Hlo Hhi. unfold App.clamp.
  destruct (Math_min_cases hi v) as [[? ->] | [? ->]];
    [destruct (Math_max_cases lo hi) as [[? ->] | [? ->]]
    | destruct (Math_max_cases lo v) as [[? ->] | [? ->]]];
    lra.
Qed.

(** The worker after the message of [sendParams]. *)
Lemma sendParams_delivered `{Host} (params : App.UiParams) (s : Rev2.state) :
  let s' := deliver (App.sendParams true params) s in
  let w := App.clamp (App.w0 params) 0 1 in
  Rev2.cells s' = Rev2.cells s /\
  Rev2.f0 s' = App.f0 params /\
  Rev2.tunables s' =
    {| tau := App.tau params; sigma := App.sigma params;
       alpha := App.alpha params; beta := App.beta params;
       kappa := App.kappa params; d := App.d params;
       delta := App.delta params; w0 := w; w1 := 1 - w |} /\
  (0 <= w)%Q /\ (w <= 1)%Q /\
  App.sendParams false params = [].
Proof.
  cbn zeta. unfold deliver, App.sendParams. cbn [negb fold_left].
  unfold Rev2.onmessage. cbn [fst]. unfold Rev2.setParams, Rev2.assign.
  cbn [Rev2.p_f0 Rev2.p_tau Rev2.p_sigma Rev2.p_alpha Rev2.p_beta Rev2.p_kappa
       Rev2.p_d Rev2.p_delta Rev2.p_w0 Rev2.cells Rev2.f0 Rev2.tunables].
  rewrite clamp_unit_idem.
  destruct (clamp_bounds (App.w0 params) 0 1) as [? ?]; [done |].
  done.
Qed.

(** X11. What [sendParams] posts overwrites every parameter of the worker:
    afterwards the worker's [f0] and tunables are the page's, with [w0] as
    clamped by the page (the worker's own clamp changes nothing more) and
    [w1 = 1 - w0]; the grid is untouched.  Without a worker nothing is
    posted. *)
Theorem params_reach_worker `{Host} (params : App.UiParams) (s : Rev2.state) :
  let s' := deliver (App.sendParams true params) s in
  let w := App.clamp (App.w0 params) 0 1 in
  Rev2.cells s' = Rev2.cells s /\
  Rev2.f0 s' = App.f0 params /\
  Rev2.tunables s' =
    {| tau := App.tau params; sigma := App.sigma params;
       alpha := App.alpha params; beta := App.beta params;
       kappa := App.kappa params; d := App.d params;
       delta := App.delta params; w0 := w; w1 := 1 - w |} /\
  (0 <= w)%Q /\ (w <= 1)%Q /\
  App.sendParams false params = [].
Proof. exact (sendParams_delivered params s). Qed.



(** ** From the pointer to a cell *)





Lemma screenToCell_in_bounds (rect : App.DOMRect) (vp : App.viewport)
    (ev : App.PointerEvent) (cx cy : Z) :
  App.screenToCell rect vp ev = Some (cx, cy) ->
  0 <= cx < App.WIDTH /\ 0 <= cy < App.HEIGHT.
Proof.
  unfold App.screenToCell.
  set (x := Qfloor _). set (y := Qfloor _).
  destruct (Z.ltb_spec x 0), (Z.ltb_spec y 0), (Z.geb_spec x App.WIDTH),
    (Z.geb_spec y App.HEIGHT); cbn [orb]; intros Heq; try discriminate Heq.
  injection Heq as <- <-. lia.
Qed.

(** ** Painting and panning *)

(** X14. Painting, with a positive cell size.  Whatever pointer-down and
    pointer-move post is [render] or a [setCell] for a cell of the 200 by 200
    grid, and without a worker they post nothing.  A pointer-down that does
    not pan, over a cell, posts [setCell] for that cell and then [render],
    with value 0 for the right button or with Alt held and 1 otherwise, and
    remembers the cell; off the grid it posts nothing.  A move over the cell
    painted last posts nothing, so a move at the place of the pointer-down
    posts nothing. *)
Theorem pointer_paints (worker : bool) (rect : App.DOMRect)
    (ev : App.PointerEvent) (vp : App.viewport) (ps : App.pointer) :
  (0 < App.cellSize vp)%Q ->
  let down := App.onPointerDown worker rect ev vp ps in
  let move := App.onPointerMove worker rect ev vp ps in
  Forall paints_on_grid (down.2 ++ move.2) /\
  (worker = false -> down.2 = [] /\ move.2 = []) /\
  ((App.button ev =? 1) || App.spaceHeld ps = false ->
   match App.screenToCell rect vp ev with
   | Some (cx, cy) =>
       down.2 =
       (if worker
        then [Rev2.SetCell cx cy (negb ((App.button ev =? 2) || App.altKey ev));
              Rev2.Render]
        else []) /\
       App.lastPaintedKey down.1 = cy * App.WIDTH + cx
   | None => down.2 = []
   end) /\
  (forall cx cy,
     App.screenToCell rect vp ev = Some (cx, cy) ->
     App.lastPaintedKey ps = cy * App.WIDTH + cx -> move.2 = []) /\
  (App.onPointerMove worker rect ev vp down.1).2 = [].
Proof.
  intros _ down move.
  assert (Hhit : forall cx cy v,
            App.screenToCell rect vp ev = Some (cx, cy) ->
            Forall paints_on_grid
              (App.setCell worker cx cy v ++ App.requestRender worker)).
  { intros cx cy v Hsome. apply screenToCell_in_bounds in Hsome.
    unfold App.setCell, App.requestRender. destruct worker; cbn.
    - apply Forall_cons_2; [exact Hsome |].
      apply Forall_cons_2; [exact I | apply Forall_nil_2].
    - apply Forall_nil_2. }
  split; [| split; [| split; [| split]]].
  - apply Forall_app. split.
    + unfold down, App.onPointerDown.
      destruct (_ || App.spaceHeld ps); [apply Forall_nil_2 |].
      destruct (App.screenToCell rect vp ev) as [[cx cy] |] eqn:Hsome;
        [by apply Hhit | apply Forall_nil_2].
    + unfold move, App.onPointerMove.
      destruct (App.isPanning ps); [apply Forall_nil_2 |].
      destruct (App.isDrawing ps); cbn [negb]; [| apply Forall_nil_2].
      destruct (App.screenToCell rect vp ev) as [[cx cy] |] eqn:Hsome;
        [| apply Forall_nil_2].
      cbn zeta. destruct (_ =? _); [apply Forall_nil_2 | by apply Hhit].
  - intros ->. unfold down, move, App.onPointerDown, App.onPointerMove.
    split.
    + destruct (_ || App.spaceHeld ps); [done |].
      by destruct (App.screenToCell rect vp ev) as [[cx cy] |].
    + destruct (App.isPanning ps); [done |].
      destruct (App.isDrawing ps); cbn [negb]; [| done].
      destruct (App.screenToCell rect vp ev) as [[cx cy] |]; [| done].
      cbn zeta. by destruct (_ =? _).
  - intros Hpan. unfold down, App.onPointerDown. rewrite Hpan.
    destruct (App.screenToCell rect vp ev) as [[cx cy] |]; [| done].
    split; [| done].
    unfold App.setCell, App.requestRender.
    destruct worker; cbn [negb app]; [| done].
    by destruct (_ || App.altKey ev).
  - intros cx cy Hsome Hkey. unfold move, App.onPointerMove.
    destruct (App.isPanning ps); [done |].
    destruct (App.isDrawing ps); cbn [negb]; [| done].
    rewrite Hsome. cbn zeta. rewrite Hkey, Z.eqb_refl. done.
  - unfold down, App.onPointerDown.
    destruct (_ || App.spaceHeld ps); [done |].
    destruct (App.screenToCell rect vp ev) as [[cx cy] |] eqn:Hsome.
    + unfold App.onPointerMove. cbn [fst App.isPanning App.isDrawing].
      destruct (App.isPanning ps); [done |]. cbn [negb].
      rewrite Hsome. cbn zeta. cbn [App.lastPaintedKey].
      by rewrite Z.eqb_refl.
    + unfold App.onPointerMove. cbn [fst App.isPanning App.isDrawing].
      destruct (App.isPanning ps); [done |]. cbn [negb].
      by rewrite Hsome.
Qed.

Lemma pointer_paints_witness :
  let rect := App.mkRect 8 8 in
  let vp := App.mkViewport 4 0 0 in
  let ev := App.mkPointerEvent 18 14 0 false in
  let ps := App.mkPointer false false true (-1) false (0, 0)%Q (0, 0)%Q in
  (0 < App.cellSize vp)%Q /\
  (App.onPointerDown true rect ev vp ps).2 =
    [Rev2.SetCell 2 1 true; Rev2.Render] /\
  (App.onPointerMove true rect ev vp
     (App.onPointerDown true rect ev vp ps).1).2 = [].
Proof.
  lazy zeta. split; [reflexivity |].
  pose proof (pointer_paints true (App.mkRect 8 8)
                (App.mkPointerEvent 18 14 0 false) (App.mkViewport 4 0 0)
                (App.mkPointer false false true (-1) false (0, 0)%Q (0, 0)%Q)
                eq_refl) as Hp.
  lazy zeta in Hp. destruct Hp as (_ & _ & Hdown & _ & Hmove).
  split; [exact (proj1 (Hdown eq_refl)) | exact Hmove].
Defined.

Lemma Rev2_Render_state `{Host} (s : Rev2.state) :
  (Rev2.onmessage Rev2.Render s).1 = s.
Proof.
  unfold Rev2.onmessage. destruct (initialized (Rev2.cells s)); done.
Qed.

(** X15. A click reaches the worker.  When the worker holds an initialized
    grid of the page's size, a pointer-down that does not pan, over the cell
    [(cx, cy)], leaves the worker, once its messages are handled, with that
    cell alive, or dead for the right button or with Alt held; every other
    cell, the fertility and the generation are as before. *)
Theorem click_sets_cell `{Host} (rect : App.DOMRect) (ev : App.PointerEvent)
    (vp : App.viewport) (ps : App.pointer) (s : Rev2.state) (cx cy : Z) :
  (0 < App.cellSize vp)%Q ->
  initialized (Rev2.cells s) = true ->
  st_W (Rev2.cells s) = App.WIDTH -> st_H (Rev2.cells s) = App.HEIGHT ->
  st_N (Rev2.cells s) = App.WIDTH * App.HEIGHT ->
  Z.of_nat (length (st_A (Rev2.cells s))) = st_N (Rev2.cells s) ->
  (App.button ev =? 1) || App.spaceHeld ps = false ->
  App.screenToCell rect vp ev = Some (cx, cy) ->
  let g := Rev2.cells s in
  let s' := deliver (App.onPointerDown true rect ev vp ps).2 s in
  let g' := Rev2.cells s' in
  rd 0 (st_A g') (idx g cx cy) =
    (if (App.button ev =? 2) || App.altKey ev then 0 else 1) /\
  (forall x y, 0 <= x < App.WIDTH -> 0 <= y < App.HEIGHT ->
     (x, y) <> (cx, cy) ->
     rd 0 (st_A g') (idx g x y) = rd 0 (st_A g) (idx g x y)) /\
  st_F g' = st_F g /\ st_gen g' = st_gen g /\
  Rev2.tunables s' = Rev2.tunables s.
Proof.
  intros _ Hi HW HH HN HlA Hpan Hsome. cbn zeta.
  pose proof (screenToCell_in_bounds _ _ _ _ _ Hsome) as [Hcx Hcy].
  unfold App.onPointerDown. rewrite Hpan, Hsome.
  unfold App.setCell, App.requestRender, deliver.
  cbn [snd negb app fold_left]. rewrite Rev2_Render_state.
  unfold Rev2.onmessage. rewrite Hi. cbn [negb fst].
  cbn [Rev2.cells Rev2.with_cells Rev2.tunables].
  set (g := Rev2.cells s) in *. unfold setCell.
  rewrite HW, HH.
  destruct (Z.leb_spec 0 cx), (Z.leb_spec 0 cy), (Z.ltb_spec cx App.WIDTH),
    (Z.ltb_spec cy App.HEIGHT); try lia.
  cbn [andb st_A set_A st_F st_gen].
  assert (HNg : st_N g = st_W g * st_H g) by (rewrite HW, HH; exact HN).
  pose proof (idx_in_range g cx cy HNg ltac:(lia) ltac:(lia)) as Hin.
  split.
  - rewrite rd_wr_eq by lia. by destruct (_ || App.altKey ev).
  - split; [| by destruct g].
    intros x y Hx Hy Hne. apply rd_wr_ne.
    intros Heq. apply idx_injective in Heq; [| lia..].
    destruct Heq as [-> ->]. done.
Qed.

Lemma click_sets_cell_witness :
  let rect := App.mkRect 8 8 in
  let vp := App.mkViewport 4 0 0 in
  let ev := App.mkPointerEvent 18 14 0 false in
  let ps := App.mkPointer false false true (-1) false (0, 0)%Q (0, 0)%Q in
  let n := Z.to_nat 40000 in
  let s :=
    Rev2.mkState
      (mkGrid true 200 200 40000 (replicate n 0) (replicate n 0.7%Q)
         (replicate n 0) 0 (replicate n 0%Q) (replicate n 0))
      0.7 default_rules in
  let s' := @deliver dyadic_host (App.onPointerDown true rect ev vp ps).2 s in
  (0 < App.cellSize vp)%Q /\
  App.screenToCell rect vp ev = Some (2, 1) /\
  rd 0 (st_A (Rev2.cells s')) (idx (Rev2.cells s) 2 1) =
    (if (App.button ev =? 2) || App.altKey ev then 0 else 1).
Proof.
  lazy zeta. split; [reflexivity |]. split; [reflexivity |].
  assert (Hl : Z.of_nat (length (replicate (Z.to_nat 40000) 0)) = 40000)
    by (rewrite length_replicate; apply Z2Nat.id; lia).
  pose proof
    (@click_sets_cell dyadic_host (App.mkRect 8 8)
       (App.mkPointerEvent 18 14 0 false) (App.mkViewport 4 0 0)
       (App.mkPointer false false true (-1) false (0, 0)%Q (0, 0)%Q)
       (Rev2.mkState
          (mkGrid true 200 200 40000 (replicate (Z.to_nat 40000) 0)
             (replicate (Z.to_nat 40000) 0.7%Q) (replicate (Z.to_nat 40000) 0)
             0 (replicate (Z.to_nat 40000) 0%Q) (replicate (Z.to_nat 40000) 0))
          0.7 default_rules)
       2 1 eq_refl eq_refl eq_refl eq_refl eq_refl Hl eq_refl eq_refl) as Hp.
  lazy zeta in Hp. destruct Hp as [Hp _]. exact Hp.
Defined.



(** ** Zooming *)





(** X18. The zoom buttons keep the offsets and give a cell size within 2 and
    24.  From a size within these bounds, zooming in adds at most a half and
    zooming out takes at most a half; zooming in and then out gives the old
    size back when it is at most 23.5, and zooming out and then in when it
    is at least 2.5. *)
Theorem zoom_buttons (vp : App.viewport) :
  (2 <= App.cellSize vp)%Q -> (App.cellSize vp <= 24)%Q ->
  let size := App.cellSize vp in
  let zi := App.zoomIn vp in
  let zo := App.zoomOut vp in
  (App.offsetX zi, App.offsetY zi) = (App.offsetX vp, App.offsetY vp) /\
  (App.offsetX zo, App.offsetY zo) = (App.offsetX vp, App.offsetY vp) /\
  (2 <= App.cellSize zi)%Q /\ (App.cellSize zi <= 24)%Q /\
  (2 <= App.cellSize zo)%Q /\ (App.cellSize zo <= 24)%Q /\
  (size <= App.cellSize zi)%Q /\ (App.cellSize zi <= size + (1 # 2))%Q /\
  (size - (1 # 2) <= App.cellSize zo)%Q /\ (App.cellSize zo <= size)%Q /\
  ((size <= 23.5)%Q -> (App.cellSize (App.zoomOut zi) == size)%Q) /\
  ((2.5 <= size)%Q -> (App.cellSize (App.zoomIn zo) == size)%Q).
Proof.
  intros Hlo Hhi. cbn zeta.
  unfold App.zoomIn, App.zoomOut. cbn [App.cellSize App.offsetX App.offsetY].
  unfold App.clamp, App.cellSizeMin, App.cellSizeMax.
  do 2 (split; [reflexivity |]).
  repeat split;
    repeat match goal with
           | |- context [Math_min ?a ?b] =>
               destruct (Math_min_cases a b) as [[? ->] | [? ->]]
           | |- context [Math_max ?a ?b] =>
               destruct (Math_max_cases a b) as [[? ->] | [? ->]]
           | H : context [Math_min ?a ?b] |- _ =>
               destruct (Math_min_cases a b) as [[? Heq] | [? Heq]];
               rewrite Heq in H; clear Heq
           | H : context [Math_max ?a ?b] |- _ =>
               destruct (Math_max_cases a b) as [[? Heq] | [? Heq]];
               rewrite Heq in H; clear Heq
           end; intros; lra.
Qed.

Lemma zoom_buttons_witness :
  let vp := App.mkViewport 4 0 0 in
  (2 <= App.cellSize vp)%Q /\ (App.cellSize vp <= 24)%Q /\
  (App.cellSize vp <= 23.5)%Q /\
  (App.cellSize (App.zoomOut (App.zoomIn vp)) == App.cellSize vp)%Q.
Proof.
  lazy zeta.
  assert (H2 : (2 <= App.cellSize (App.mkViewport 4 0 0))%Q) by discriminate.
  assert (H24 : (App.cellSize (App.mkViewport 4 0 0) <= 24)%Q) by discriminate.
  assert (H23 : (App.cellSize (App.mkViewport 4 0 0) <= 23.5)%Q) by discriminate.
  do 3 (split; [assumption |]).
  pose proof (zoom_buttons (App.mkViewport 4 0 0) H2 H24) as Hz.
  lazy zeta in Hz.
  destruct Hz as (_ & _ & _ & _ & _ & _ & _ & _ & _ & _ & Hback & _).
  exact (Hback H23).
Defined.

(** ** The step timer *)

(** X19. The period that [applySpeed] gives the interval timer is
    [1000 / speed] rounded to the nearest millisecond, for the speed clamped
    to 1 and 60; so it is within 17 and 1000, and a greater speed never
    gives a longer period. *)
Theorem timer_period (speed : Q) :
  let ms := App.interval_ms speed in
  let c := App.clamp speed 1 60 in
  17 <= ms <= 1000 /\
  (1000 / c - (1 # 2) < inject_Z ms)%Q /\
  (inject_Z ms <= 1000 / c + (1 # 2))%Q /\
  forall speed', (speed <= speed')%Q -> App.interval_ms speed' <= ms.
Proof.
  assert (Hrange : forall v,
            (1 <= App.clamp v 1 60)%Q /\ (App.clamp v 1 60 <= 60)%Q)
    by (intros v; apply clamp_bounds; lra).
  assert (Hfloor : forall v,
            17 <= Qfloor (1000 / App.clamp v 1 60 + (1 # 2)) <= 1000).
  { intros v. destruct (Hrange v) as [H1 H60].
    set (c := App.clamp v 1 60) in *.
    assert (Hlo : (50 # 3 <= 1000 / c)%Q) by (apply Qle_shift_div_l; lra).
    assert (Hhi : (1000 / c <= 1000)%Q) by (apply Qle_shift_div_r; lra).
    split.
    - change 17 with (Qfloor 17). apply Qfloor_resp_le. lra.
    - change 1000 with (Qfloor (2001 # 2)) at 2. apply Qfloor_resp_le. lra. }
  cbn zeta. unfold App.interval_ms.
  pose proof (Hfloor speed) as Hms. destruct (Hrange speed) as [H1 H60].
  set (c := App.clamp speed 1 60) in *.
  rewrite Z.max_r by lia.
  split; [exact Hms |].
  pose proof (Qfloor_le (1000 / c + (1 # 2))) as Hle.
  pose proof (Qlt_floor (1000 / c + (1 # 2))) as Hlt.
  rewrite inject_Z_plus in Hlt. change (inject_Z 1) with 1%Q in Hlt.
  split; [lra |]. split; [lra |].
  intros speed' Hsp.
  pose proof (Hfloor speed') as Hms'. destruct (Hrange speed') as [H1' H60'].
  rewrite Z.max_r by lia.
  apply Qfloor_resp_le.
  assert (Hc : (c <= App.clamp speed' 1 60)%Q).
  { unfold c, App.clamp.
    destruct (Math_min_cases 60 speed) as [[? ->] | [? ->]],
      (Math_min_cases 60 speed') as [[? ->] | [? ->]];
      repeat match goal with
             | |- context [Math_max ?a ?b] =>
                 destruct (Math_max_cases a b) as [[? ->] | [? ->]]
             end; lra. }
  set (c' := App.clamp speed' 1 60) in *.
  assert (Hdiv : (1000 / c' <= 1000 / c)%Q).
  { apply Qle_shift_div_r; [lra |].
    assert (H0 : (0 <= 1000 / c)%Q) by (apply Qle_shift_div_l; lra).
    assert (Hprod : (0 <= 1000 / c * (c' - c))%Q)
      by (apply Qmult_le_0_compat; lra).
    assert (Hself : (1000 / c * c == 1000)%Q) by (field; lra).
    lra. }
  lra.
Qed.

(** ** One step at a time *)

Lemma handle_all_snoc (evs : list App.event) (ev : App.event)
    (t : App.transport) :
  App.handle_all (evs ++ [ev]) t =
  ((App.handle ev (App.handle_all evs t).1).1,
   (App.handle_all evs t).2 ++ (App.handle ev (App.handle_all evs t).1).2).
Proof.
  unfold App.handle_all. rewrite fold_left_app. cbn [fold_left].
  by destruct (App.handle ev _).
Qed.

Lemma steps_posted_app (a b : list Rev2.InMsg) :
  steps_posted (a ++ b) = steps_posted a + steps_posted b.
Proof.
  induction a as [| msg a IH]; [done |].
  cbn [app]. unfold steps_posted in *. cbn [fold_right]. rewrite IH.
  destruct msg; lia.
Qed.

Lemma step_frames_app (a b : list App.event) :
  step_frames (a ++ b) = step_frames a + step_frames b.
Proof.
  induction a as [| ev a IH]; [done |].
  cbn [app]. unfold step_frames in *. cbn [fold_right]. rewrite IH.
  destruct ev as [| | | | msg]; try lia. destruct (source msg); lia.
Qed.

(** What one event does to the transport. *)
Lemma handle_event (ev : App.event) (t : App.transport) :
  App.stepTimer t =
    (if App.playing t then Some (App.interval_ms (App.speed t)) else None) ->
  let res := App.handle ev t in
  steps_posted res.2 + Z.b2z (App.stepInFlight t) <=
    step_frames [ev] + Z.b2z (App.stepInFlight res.1) /\
  App.stepTimer res.1 =
    (if App.playing res.1 then Some (App.interval_ms (App.speed res.1))
     else None) /\
  App.worker res.1 = App.worker t /\ App.speed res.1 = App.speed t /\
  (App.worker t = false -> res.2 = []).
Proof.
  intros Htimer. cbn zeta.
  destruct t as [w p sp tm fl gen al lf]. cbn in Htimer.
  destruct ev as [| | | | msg]; cbn [App.handle].
  - unfold App.togglePlay, App.play, App.pause, App.applySpeed.
    destruct p, fl; cbn; repeat split; done.
  - unfold App.stepOnce, App.requestStep.
    destruct p, w, fl; cbn; repeat split; done.
  - unfold App.resetAll, App.pause.
    destruct p, w, fl; cbn; repeat split; done.
  - unfold App.requestStep.
    destruct tm, p, w, fl; cbn; repeat split; done.
  - destruct msg as [src wd ht g a px].
    destruct src, p, fl; cbn; repeat split; done.
Qed.

(** X20. One step at a time.  Start with no step in flight and with the timer
    running exactly when the page is playing.  Then after any sequence of
    button presses, timer firings and frames, the page has posted at most
    one [step] more than it has received frames that answer a [step], and
    none more when no step is in flight.  The timer still runs exactly when
    the page is playing, with the period of the speed; and a page without a
    worker has posted nothing. *)
Theorem one_step_in_flight (evs : list App.event) (t : App.transport) :
  App.stepInFlight t = false ->
  App.stepTimer t =
    (if App.playing t then Some (App.interval_ms (App.speed t)) else None) ->
  let res := App.handle_all evs t in
  steps_posted res.2 <= step_frames evs + Z.b2z (App.stepInFlight res.1) /\
  steps_posted res.2 <= step_frames evs + 1 /\
  App.stepTimer res.1 =
    (if App.playing res.1 then Some (App.interval_ms (App.speed res.1))
     else None) /\
  App.worker res.1 = App.worker t /\ App.speed res.1 = App.speed t /\
  (App.worker t = false -> res.2 = []).
Proof.
  intros Hfl Htimer. cbn zeta.
  induction evs as [| ev evs IH] using rev_ind.
  - cbn. rewrite Hfl. repeat split; done.
  - destruct IH as (Hsent & _ & Htm & Hw & Hsp & Hnone).
    rewrite handle_all_snoc. cbn [fst snd].
    destruct (handle_event ev (App.handle_all evs t).1 Htm)
      as (Hstep & Htm' & Hw' & Hsp' & Hnone').
    rewrite steps_posted_app, step_frames_app.
    split; [lia |]. split.
    { destruct (App.stepInFlight (App.handle ev (App.handle_all evs t).1).1);
        cbn [Z.b2z] in Hstep; lia. }
    split; [exact Htm' |]. split; [congruence |]. split; [congruence |].
    intros Hoff. rewrite (Hnone Hoff), Hnone' by congruence. done.
Qed.

Lemma one_step_in_flight_witness :
  let evs := [App.EvStepOnce; App.EvStepOnce; App.EvTogglePlay; App.EvTick] in
  let t := App.mkTransport true false 20 None false 0 0 None in
  App.stepInFlight t = false /\
  steps_posted (App.handle_all evs t).2 <= step_frames evs + 1.
Proof.
  lazy zeta. split; [reflexivity |].
  pose proof (one_step_in_flight
                [App.EvStepOnce; App.EvStepOnce; App.EvTogglePlay; App.EvTick]
                (App.mkTransport true false 20 None false 0 0 None)
                eq_refl eq_refl) as Hg.
  lazy zeta in Hg. exact (proj1 (proj2 Hg)).
Defined.

(** ** The page and the worker together *)





(** ** A bound on the fertility *)



